(** * Shallow embedding of the MMTk string-buffer glue (mmtk_gc_impl.c)
      and of the YJIT runtime-support layer (yjit.c)

    Heap references are logical handles: a pointer is a block identity with
    a byte offset, so a relocation by the collector is invisible here.
    Integers of a fixed width are [Z] with the wrap-around written out. *)

From Stdlib Require Import ZArith Lia Init.Byte.
From stdpp Require Import gmap strings list.

Open Scope Z_scope.

(** ** Machine integers *)

Definition SIZE_MAX_plus_1 : Z := 2 ^ 64.
Definition INT_MAX : Z := 2 ^ 31 - 1.

(** [size_t] and [VALUE] arithmetic wraps modulo 2^64. *)
Definition wrap64 (z : Z) : Z := z mod SIZE_MAX_plus_1.

(** Conversion to a 32-bit [int] keeps the low 32 bits, read as two's
    complement. *)
Definition to_int (z : Z) : Z := (z + 2 ^ 31) mod 2 ^ 32 - 2 ^ 31.

(** Conversion to [intptr_t] keeps the 64 bits, read as two's complement. *)
Definition to_intptr (z : Z) : Z := (z + 2 ^ 63) mod 2 ^ 64 - 2 ^ 63.

(** ** mmtk_gc_impl.c *)

Module Mmtk.

(** A [char *]: NULL, or an offset into a block of bytes.  The block of an
    imemo:mmtk_strbuf is named by the VALUE of that imemo and holds its
    [ary] field. *)
Inductive pointer : Type :=
| NULL
| Ptr (blk : Z) (off : Z).

(** The fields of a heap (not embedded) string that this file touches:
    [RSTRING(str)->as.heap.ptr], [RSTRING(str)->as.heap.aux.capa] and
    [RSTRING_EXT(str)->strbuf]. *)
Record RString : Type := mkRString {
  as_heap_ptr : pointer;
  as_heap_aux_capa : Z;
  ext_strbuf : Z
}.

Record heap : Type := mkHeap {
  blocks : gmap Z (list byte);
  strings : gmap Z RString
}.

Definition set_blocks (m : gmap Z (list byte)) (h : heap) : heap :=
  {| blocks := m; strings := strings h |}.

Definition set_strings (m : gmap Z RString) (h : heap) : heap :=
  {| blocks := blocks h; strings := m |}.

(** Reading [n] bytes at [p]; [None] when the range is not inside one
    block. *)
Definition load_bytes (h : heap) (p : pointer) (n : Z) : option (list byte) :=
  match p with
  | NULL => None
  | Ptr b off =>
      match blocks h !! b with
      | None => None
      | Some bs =>
          if (0 <=? off) && (0 <=? n) && (off + n <=? Z.of_nat (length bs))
          then Some (take (Z.to_nat n) (drop (Z.to_nat off) bs))
          else None
      end
  end.

(** Writing [data] at [p]; [None] when the range is not inside one block. *)
Definition store_bytes (h : heap) (p : pointer) (data : list byte) : option heap :=
  match p with
  | NULL => None
  | Ptr b off =>
      match blocks h !! b with
      | None => None
      | Some bs =>
          if (0 <=? off) && (off + Z.of_nat (length data) <=? Z.of_nat (length bs))
          then Some (set_blocks
                       (<[b := take (Z.to_nat off) bs ++ data ++
                                drop (Z.to_nat off + length data) bs]> (blocks h)) h)
          else None
      end
  end.

(** Two ranges of [n] bytes share a byte. *)
Definition overlap (dst src : pointer) (n : Z) : bool :=
  match dst, src with
  | Ptr bd od, Ptr bs os =>
      bool_decide (bd = bs) && (0 <? n) && (od <? os + n) && (os <? od + n)
  | _, _ => false
  end.

(** [memcpy(dst, src, n)]: undefined (here [None]) on a range outside a
    block and on overlapping ranges. *)
Definition memcpy (dst src : pointer) (n : Z) (h : heap) : option heap :=
  if overlap dst src n then None
  else
    match load_bytes h src n with
    | None => None
    | Some data => store_bytes h dst data
    end.

(** [rb_mmtk_strbuf_to_chars]: the address of the [ary] field. *)
Definition rb_mmtk_strbuf_to_chars (strbuf : Z) : pointer := Ptr strbuf 0.

(** [RSTRING(str)->as.heap.ptr = chars]. *)
Definition set_as_heap_ptr (str : Z) (chars : pointer) (h : heap) : option heap :=
  match strings h !! str with
  | None => None
  | Some r =>
      Some (set_strings
              (<[str := mkRString chars (as_heap_aux_capa r) (ext_strbuf r)]> (strings h)) h)
  end.

(** [rb_mmtk_str_set_strbuf]: the buffer-identity slot of the string. *)
Definition rb_mmtk_str_set_strbuf (str : Z) (strbuf : Z) (h : heap) : option heap :=
  match strings h !! str with
  | None => None
  | Some r =>
      Some (set_strings
              (<[str := mkRString (as_heap_ptr r) (as_heap_aux_capa r) strbuf]> (strings h)) h)
  end.

(** [RSTRING(str)->as.heap.aux.capa = capa]. *)
Definition set_as_heap_aux_capa (str : Z) (capa : Z) (h : heap) : option heap :=
  match strings h !! str with
  | None => None
  | Some r =>
      Some (set_strings
              (<[str := mkRString (as_heap_ptr r) capa (ext_strbuf r)]> (strings h)) h)
  end.

(** The allocator [rb_mmtk_new_strbuf] is not part of these files; it is a
    parameter.  Its contract: the returned buffer is a block that did not
    exist, of [capa] bytes, every block that existed is still there with
    its bytes (logical handles hide a move, and what the caller reads is
    pinned), and no string header is written. *)
Definition allocator : Type := Z -> heap -> Z * heap.

Definition allocator_ok (rb_mmtk_new_strbuf : allocator) : Prop :=
  forall capa h,
    0 <= capa ->
    exists init,
      blocks h !! (rb_mmtk_new_strbuf capa h).1 = None /\
      length init = Z.to_nat capa /\
      blocks (rb_mmtk_new_strbuf capa h).2 =
        <[(rb_mmtk_new_strbuf capa h).1 := init]> (blocks h) /\
      strings (rb_mmtk_new_strbuf capa h).2 = strings h.

Section WithAllocator.

Variable rb_mmtk_new_strbuf : allocator.

(** The first half of [rb_mmtk_str_new_strbuf_copy_impl], up to and
    including the [memcpy]: the new buffer and the heap in which it is
    written.  [RUBY_ASSERT(capa >= copy_size)] fails as [None]. *)
Definition new_strbuf_copy_fill (capa : Z) (src : pointer) (copy_size : Z) (h : heap)
  : option (Z * heap) :=
  let '(strbuf, h1) := rb_mmtk_new_strbuf capa h in
  let chars := rb_mmtk_strbuf_to_chars strbuf in
  match src with
  | NULL => Some (strbuf, h1)
  | Ptr _ _ =>
      if capa <? copy_size then None
      else
        match memcpy chars src copy_size h1 with
        | None => None
        | Some h2 => Some (strbuf, h2)
        end
  end.

(** The second half: the two writes to the owner. *)
Definition new_strbuf_attach (str : Z) (strbuf : Z) (h : heap) : option heap :=
  match set_as_heap_ptr str (rb_mmtk_strbuf_to_chars strbuf) h with
  | None => None
  | Some h3 => rb_mmtk_str_set_strbuf str strbuf h3
  end.

(** [src_obj] is only kept alive ([RB_GC_GUARD]); it is not read. *)
Definition rb_mmtk_str_new_strbuf_copy_impl
    (str : Z) (capa : Z) (src_obj : Z) (src : pointer) (copy_size : Z) (h : heap)
  : option heap :=
  match new_strbuf_copy_fill capa src copy_size h with
  | None => None
  | Some (strbuf, h2) => new_strbuf_attach str strbuf h2
  end.

Definition rb_mmtk_str_new_strbuf (str : Z) (capa : Z) (h : heap) : option heap :=
  rb_mmtk_str_new_strbuf_copy_impl str capa 0 NULL 0 h.

(** [old_size < new_size ? old_size : new_size]. *)
Definition realloc_copy_size (new_size old_size : Z) : Z :=
  if old_size <? new_size then old_size else new_size.

Definition rb_mmtk_str_sized_realloc_n_impl (str : Z) (new_size old_size : Z) (h : heap)
  : option heap :=
  match strings h !! str with
  | None => None
  | Some r =>
      let copy_size := realloc_copy_size new_size old_size in
      match rb_mmtk_str_new_strbuf_copy_impl
              str new_size (ext_strbuf r) (as_heap_ptr r) copy_size h with
      | None => None
      | Some h1 => set_as_heap_aux_capa str new_size h1
      end
  end.

End WithAllocator.

(** A bump allocator that satisfies the contract: the next unused block
    identity, filled with zero bytes. *)
Definition bump_new_strbuf : allocator :=
  fun capa h =>
    let b := fresh (dom (blocks h)) in
    (b, set_blocks (<[b := replicate (Z.to_nat capa) x00]> (blocks h)) h).

(** A heap to run the string code on: the string 100 owns the 16-byte
    buffer 1, and the block 2, which belongs to no string, starts with the
    same ten bytes. *)
Definition hello_bytes : list byte :=
  [x68; x65; x6c; x6c; x6f; x2c; x72; x75; x62; x79].

Definition sample_heap : heap :=
  mkHeap
    (<[1 := hello_bytes ++ replicate 6 x00]> (<[2 := hello_bytes]> ∅))
    (<[100 := mkRString (Ptr 1 0) 16 1]> ∅).

(** The sizes of [struct RString] and of [rb_mmtk_stringext_t] come from
    headers that are not part of these files; they are parameters. *)
Section Sizes.

Variables sizeof_RString sizeof_rb_mmtk_stringext_t : Z.

Definition rb_mmtk_str_heap_size : Z :=
  wrap64 (sizeof_RString + sizeof_rb_mmtk_stringext_t).

Definition rb_mmtk_string_size_impl (size : Z) : Z :=
  if size <? rb_mmtk_str_heap_size then rb_mmtk_str_heap_size else size.

End Sizes.

(** [rb_mmtk_str_new_strbuf_impl]: one line on stderr, then the attach of
    an empty buffer of [sizeof(char) * len + sizeof(char) * termlen] bytes,
    computed in [size_t] ([len] is a [long], [termlen] an [int]). *)
Definition newline : string := String (Ascii.ascii_of_nat 10) EmptyString.

Definition rb_mmtk_str_new_strbuf_impl (rb_mmtk_new_strbuf : allocator)
    (str : Z) (len termlen : Z) (stderr : list string) (h : heap)
  : list string * option heap :=
  let stderr1 := stderr ++ [String.append "allocating string chunk" newline] in
  (stderr1,
   rb_mmtk_str_new_strbuf rb_mmtk_new_strbuf str
     (wrap64 (wrap64 (1 * wrap64 len) + wrap64 (1 * wrap64 termlen))) h).

(** *** The attach with a source inside the string itself

    By its source comment [rb_mmtk_str_new_strbuf_copy_impl] takes a
    [src] that may point into [str].  [struct RString] is not part of
    these files: its [as] field is a union in which the bytes of an
    embedded string, [as.embed.ary], share their storage with [as.heap],
    and the buffer slot of [RSTRING_EXT] lies in the same object.  The
    definitions below add the embedded bytes to the heap and repeat the
    attach, statement by statement, over them. *)
Module InStruct.

(** A [const char *] source: a pointer as above, or an offset into the
    embedded bytes of the string [str]. *)
Inductive source : Type :=
| Outside (p : pointer)
| Inside (str : Z) (off : Z).

(** The heap, and for each embedded string the bytes of its
    [as.embed.ary]. *)
Record obj_heap : Type := mkObjHeap {
  outer : heap;
  embed_ary : gmap Z (list byte)
}.

Definition set_outer (h : heap) (s : obj_heap) : obj_heap :=
  {| outer := h; embed_ary := embed_ary s |}.

(** Reading [n] bytes at [src]; inside a string, [None] when the string
    holds no embedded bytes (any more) or the range leaves them. *)
Definition load_source (s : obj_heap) (src : source) (n : Z) : option (list byte) :=
  match src with
  | Outside p => load_bytes (outer s) p n
  | Inside str off =>
      match embed_ary s !! str with
      | None => None
      | Some bs =>
          if (0 <=? off) && (0 <=? n) && (off + n <=? Z.of_nat (length bs))
          then Some (take (Z.to_nat n) (drop (Z.to_nat off) bs))
          else None
      end
  end.

(** [memcpy(dst, src, n)] into a block.  The bytes inside a string share
    nothing with a block. *)
Definition memcpy (dst : pointer) (src : source) (n : Z) (s : obj_heap) : option obj_heap :=
  match src with
  | Outside p =>
      match Mmtk.memcpy dst p n (outer s) with
      | None => None
      | Some h => Some (set_outer h s)
      end
  | Inside _ _ =>
      match load_source s src n with
      | None => None
      | Some data =>
          match store_bytes (outer s) dst data with
          | None => None
          | Some h => Some (set_outer h s)
          end
      end
  end.

(** [RSTRING(str)->as.heap.ptr = chars]: the write goes into the storage
    of the embedded bytes, which are no string content from then on. *)
Definition set_as_heap_ptr (str : Z) (chars : pointer) (s : obj_heap) : option obj_heap :=
  match Mmtk.set_as_heap_ptr str chars (outer s) with
  | None => None
  | Some h => Some (mkObjHeap h (delete str (embed_ary s)))
  end.

(** [rb_mmtk_str_set_strbuf]: a write into the object of [str] as well. *)
Definition rb_mmtk_str_set_strbuf (str : Z) (strbuf : Z) (s : obj_heap) : option obj_heap :=
  match Mmtk.rb_mmtk_str_set_strbuf str strbuf (outer s) with
  | None => None
  | Some h => Some (mkObjHeap h (delete str (embed_ary s)))
  end.

Section WithAllocator.

Variable rb_mmtk_new_strbuf : allocator.

(** The allocation works on the blocks; [src_obj] is pinned, so the bytes
    inside it stay where [src] points.  [RUBY_ASSERT(capa >= copy_size)]
    fails as [None]. *)
Definition rb_mmtk_str_new_strbuf_copy_impl
    (str : Z) (capa : Z) (src_obj : Z) (src : source) (copy_size : Z) (s : obj_heap)
  : option obj_heap :=
  let '(strbuf, h1) := rb_mmtk_new_strbuf capa (outer s) in
  let s1 := set_outer h1 s in
  let chars := rb_mmtk_strbuf_to_chars strbuf in
  let copied :=
    match src with
    | Outside NULL => Some s1
    | _ => if capa <? copy_size then None else memcpy chars src copy_size s1
    end in
  match copied with
  | None => None
  | Some s2 =>
      match set_as_heap_ptr str chars s2 with
      | None => None
      | Some s3 => rb_mmtk_str_set_strbuf str strbuf s3
      end
  end.

End WithAllocator.

(** [sample_heap] with one more string, 200, which is embedded and holds
    the same ten bytes in itself; what its heap fields read as does not
    matter. *)
Definition sample_obj_heap : obj_heap :=
  mkObjHeap
    (set_strings (<[200 := mkRString NULL 0 0]> (strings sample_heap)) sample_heap)
    (<[200 := hello_bytes]> ∅).

End InStruct.

End Mmtk.

(** ** yjit.c *)

Module Yjit.

(** *** Results of fallible code *)

(** A call either returns or ends the process in [rb_bug]. *)
Inductive outcome (A : Type) : Type :=
| Returned (a : A)
| Aborted.
Arguments Returned {A} a.
Arguments Aborted {A}.

(** Array code either finishes, or reads outside its arrays (undefined in
    C), or runs out of the fuel that bounds a loop of the model, or raises
    the ArgumentError of an array of negative size. *)
Inductive fault : Type := OutOfBounds | OutOfFuel | ArgumentError.

Inductive res (A : Type) : Type :=
| Done (a : A)
| Fault (e : fault).
Arguments Done {A} a.
Arguments Fault {A} e.

#[global] Instance res_ret : MRet res := fun A a => Done a.
#[global] Instance res_bind : MBind res :=
  fun A B f m => match m with Done a => f a | Fault e => Fault e end.

Definition of_option {A : Type} (o : option A) : res A :=
  match o with Some a => Done a | None => Fault OutOfBounds end.

(** *** Page protection (rb_yjit_mark_writable, rb_yjit_mark_executable) *)

Definition PROT_READ : Z := 1.
Definition PROT_WRITE : Z := 2.
Definition PROT_EXEC : Z := 4.

(** The calls made to the operating system, oldest first. *)
Inductive os_call : Type :=
| Mprotect (addr len prot : Z).

Section WithKernel.

(** What the kernel answers to [mprotect], given the calls made before:
    0 on success. *)
Variable mprotect_ret : list os_call -> Z -> Z -> Z -> Z.

Definition mprotect (addr len prot : Z) (tr : list os_call) : Z * list os_call :=
  (mprotect_ret tr addr len prot, tr ++ [Mprotect addr len prot]).

Definition rb_yjit_mark_writable (mem_block mem_size : Z) (tr : list os_call)
  : bool * list os_call :=
  let '(r, tr') := mprotect mem_block mem_size (Z.lor PROT_READ PROT_WRITE) tr in
  if negb (r =? 0) then (false, tr') else (true, tr').

Definition rb_yjit_mark_executable (mem_block mem_size : Z) (tr : list os_call)
  : outcome unit * list os_call :=
  if mem_size =? 0 then (Returned tt, tr)
  else
    let '(r, tr') := mprotect mem_block mem_size (Z.lor PROT_READ PROT_EXEC) tr in
    if negb (r =? 0) then (Aborted, tr') else (Returned tt, tr').

End WithKernel.

(** *** Compilation entry point (rb_yjit_compile_iseq) *)

(** The part of the VM that compilation touches: the recursion level of
    the VM lock, the number of barriers raised, and the [jit_func] field of
    each iseq body (0 is the null pointer). *)
Record vm : Type := mkVm {
  vm_lock_rec : Z;
  vm_barriers : Z;
  jit_func : gmap Z Z
}.

(** Modelled from the spec: the gate of vm_sync.h, which is not part of
    these files.  Entering raises the recursion level of the reentrant lock
    and yields the level as the token; leaving with that token lowers it. *)
Definition rb_vm_lock_enter (w : vm) : Z * vm :=
  (vm_lock_rec w + 1, mkVm (vm_lock_rec w + 1) (vm_barriers w) (jit_func w)).

Definition rb_vm_barrier (w : vm) : vm :=
  mkVm (vm_lock_rec w) (vm_barriers w + 1) (jit_func w).

Definition rb_vm_lock_leave (lev : Z) (w : vm) : vm :=
  mkVm (vm_lock_rec w - 1) (vm_barriers w) (jit_func w).

Definition set_jit_func (iseq : Z) (p : Z) (w : vm) : vm :=
  mkVm (vm_lock_rec w) (vm_barriers w) (<[iseq := p]> (jit_func w)).

Section WithGenerator.

(** The code generator is defined on the Rust side; it is a parameter. *)
Variable rb_yjit_iseq_gen_entry_point : Z -> Z -> vm -> Z * vm.

Definition rb_yjit_compile_iseq (iseq ec : Z) (w : vm) : bool * vm :=
  let success := true in
  let '(lev, w1) := rb_vm_lock_enter w in
  let w2 := rb_vm_barrier w1 in
  let '(code_ptr, w3) := rb_yjit_iseq_gen_entry_point iseq ec w2 in
  let '(success, w4) :=
    if negb (code_ptr =? 0) then (success, set_jit_func iseq code_ptr w3)
    else (false, set_jit_func iseq 0 w3) in
  let w5 := rb_vm_lock_leave lev w4 in
  (success, w5).

End WithGenerator.

(** *** Heap walk (for_each_iseq_i) *)

(** What the walk can see: the objects that the sanitizer holds poisoned,
    and the state the callback works on. *)
Record walk_state (U : Type) : Type := mkWalk {
  asan_poisoned : gset Z;
  cb_data : U
}.
Arguments mkWalk {U} _ _.
Arguments asan_poisoned {U} _.
Arguments cb_data {U} _.

(** Modelled from the spec: the sanitizer interface of
    internal/sanitizers.h, which is not part of these files, object by
    object.  [asan_poisoned_object_p] yields a pointer into the object
    when it is poisoned and the null pointer ([None]) otherwise. *)
Definition asan_poisoned_object_p {U} (v : Z) (w : walk_state U) : option Z :=
  if bool_decide (v ∈ asan_poisoned w) then Some v else None.

Definition asan_unpoison_object {U} (v : Z) (w : walk_state U) : walk_state U :=
  mkWalk (asan_poisoned w ∖ {[v]}) (cb_data w).

Definition asan_poison_object_if {U} (ptr : option Z) (v : Z) (w : walk_state U)
  : walk_state U :=
  match ptr with
  | Some _ => mkWalk (asan_poisoned w ∪ {[v]}) (cb_data w)
  | None => w
  end.

Section WithHeapObjects.

Context {U : Type}.

(** Which objects are iseqs ([rb_obj_is_iseq] is not part of these
    files). *)
Variable rb_obj_is_iseq : Z -> bool.

(** The user's callback. *)
Variable callback : Z -> walk_state U -> walk_state U.

(** One turn of the loop body on the object [v]: the iseqs handed to the
    callback in this turn, and the state after it. *)
Definition for_each_iseq_visit (v : Z) (w : walk_state U) : list Z * walk_state U :=
  let ptr := asan_poisoned_object_p v w in
  let w1 := asan_unpoison_object v w in
  let '(called, w2) :=
    if rb_obj_is_iseq v then ([v], callback v w1) else ([], w1) in
  let w3 := asan_poison_object_if ptr v w2 in
  (called, w3).

(** [for (; v != vend; v += stride)], bounded by [fuel] turns.  The second
    component lists the callback's invocations in order. *)
Fixpoint for_each_iseq_loop (fuel : nat) (v vend stride : Z) (w : walk_state U)
  : option (list Z * walk_state U) :=
  if v =? vend then Some ([], w)
  else
    match fuel with
    | O => None
    | S fuel' =>
        let '(called, w') := for_each_iseq_visit v w in
        match for_each_iseq_loop fuel' (wrap64 (v + stride)) vend stride w' with
        | None => None
        | Some (calls, w'') => Some (called ++ calls, w'')
        end
    end.

Definition for_each_iseq_i (fuel : nat) (vstart vend stride : Z) (w : walk_state U)
  : option (Z * list Z * walk_state U) :=
  match for_each_iseq_loop fuel vstart vend stride w with
  | None => None
  | Some (calls, w') => Some (0, calls, w')
  end.

End WithHeapObjects.

(** *** Leaf builtin detection *)

Definition wrap32 (z : Z) : Z := z mod 2 ^ 32.

(** The instruction tables of insns.inc and insns_info.inc and the
    translation of an encoded instruction back to its opcode are not part
    of these files; they are parameters. *)
Record insn_table : Type := mkInsns {
  insn_len : Z -> Z;
  rb_vm_insn_addr2opcode : Z -> Z;
  BIN_opt_invokebuiltin_delegate_leave : Z;
  BIN_leave : Z
}.

(** The fields of [iseq->body] read by the detection. *)
Record rb_iseq_constant_body : Type := mkBody {
  iseq_size : Z;
  iseq_encoded : list Z;
  builtin_inline_p : bool
}.

Section WithInsns.

Variable T : insn_table.

(** [&&] evaluates left to right and stops at the first false operand; a
    read outside [iseq_encoded] is [None]. *)
Definition rb_leaf_invokebuiltin_iseq_p (body : rb_iseq_constant_body) : option bool :=
  let invokebuiltin_len := wrap32 (insn_len T (BIN_opt_invokebuiltin_delegate_leave T)) in
  let leave_len := wrap32 (insn_len T (BIN_leave T)) in
  if negb (iseq_size body =? wrap32 (invokebuiltin_len + leave_len)) then Some false
  else
    match iseq_encoded body !! 0%nat with
    | None => None
    | Some e0 =>
        if negb (rb_vm_insn_addr2opcode T e0 =? BIN_opt_invokebuiltin_delegate_leave T)
        then Some false
        else
          match iseq_encoded body !! Z.to_nat invokebuiltin_len with
          | None => None
          | Some e1 =>
              if negb (rb_vm_insn_addr2opcode T e1 =? BIN_leave T) then Some false
              else Some (builtin_inline_p body)
          end
    end.

(** The result is a pointer; 0 is NULL. *)
Definition rb_leaf_builtin_function (body : rb_iseq_constant_body) : option Z :=
  match rb_leaf_invokebuiltin_iseq_p body with
  | None => None
  | Some false => Some 0
  | Some true => iseq_encoded body !! 1%nat
  end.

(** The shape the detection is described by: the encoded size is the sum
    of the two instruction lengths, the first instruction is the builtin
    dispatch, and the instruction right after it is the return. *)
Definition leaf_builtin_shape (body : rb_iseq_constant_body) : Prop :=
  let invokebuiltin_len := insn_len T (BIN_opt_invokebuiltin_delegate_leave T) in
  let leave_len := insn_len T (BIN_leave T) in
  iseq_size body = invokebuiltin_len + leave_len /\
  (exists e0, iseq_encoded body !! 0%nat = Some e0 /\
     rb_vm_insn_addr2opcode T e0 = BIN_opt_invokebuiltin_delegate_leave T) /\
  (exists e1, iseq_encoded body !! Z.to_nat invokebuiltin_len = Some e1 /\
     rb_vm_insn_addr2opcode T e1 = BIN_leave T).

End WithInsns.

(** An instruction table to run the detection on: the dispatch instruction
    has two operands, the return has none, and encoded instructions are
    their opcodes. *)
Definition sample_insns : insn_table :=
  mkInsns (fun op => if op =? 100 then 3 else 1) (fun e => e) 100 60.

(** *** Profiling export (rb_yjit_add_frame, rb_yjit_exit_locations_dict) *)

(** The Ruby values that the export builds. *)
#[warnings="-register-all"]
Inductive rvalue : Type :=
| RNil
| RInt (z : Z)
| RStr (s : string)
| RHash (kvs : list (rvalue * rvalue)).

(** [rb_hash_new()]. *)
Definition rb_hash_new : rvalue := RHash [].

(** A frame record: a Ruby hash whose keys are symbols. *)
Abbreviation frame_info := (gmap string rvalue).

(** [PTR2NUM(x)]: the Ruby Integer of [(intptr_t)x]. *)
Definition PTR2NUM (x : Z) : Z := to_intptr x.

(** [SIZET2NUM(x)]: the Ruby Integer of [x] converted to [size_t]. *)
Definition SIZET2NUM (x : Z) : Z := wrap64 x.

(** [INT2NUM(x)]. *)
Definition INT2NUM (x : Z) : Z := x.

(** The frame queries of the profiling interface ([rb_profile_frame_*]) are
    not part of these files; they are parameters. *)
Record profile_frames : Type := mkProfile {
  rb_profile_frame_full_label : Z -> rvalue;
  rb_profile_frame_absolute_path : Z -> rvalue;
  rb_profile_frame_first_lineno : Z -> rvalue;
  rb_profile_frame_path : Z -> rvalue
}.

(** The output of the export: the arrays under [:raw] and [:lines] and the
    hash under [:frames]. *)
Record exit_locations : Type := mkExit {
  res_raw : list Z;
  res_lines : list Z;
  res_frames : gmap Z frame_info
}.

(** The variables of the loop of [rb_yjit_exit_locations_dict]. *)
Record export_state : Type := mkExport {
  idx : Z;
  raw_samples : list Z;
  line_samples : list Z;
  frames : gmap Z frame_info
}.

(** [a[idx]] for an [int idx]: outside the array the read is undefined, and
    so is the [idx++] that follows a read at [INT_MAX]. *)
Definition array_get (a : list Z) (i : Z) : res Z :=
  if (0 <=? i) && (i <? INT_MAX) then of_option (a !! Z.to_nat i)
  else Fault OutOfBounds.

(** [rb_ary_push]. *)
Definition rb_ary_push (a : list Z) (x : Z) : list Z := a ++ [x].

(** [rb_ary_new_capa] is not part of these files: it raises ArgumentError
    ("negative array size") for a negative capacity and gives an empty
    array otherwise; an [int] capacity is never too big. *)
Definition rb_ary_new_capa (capa : Z) : res (list Z) :=
  if capa <? 0 then Fault ArgumentError else Done [].

Section WithProfile.

Variable P : profile_frames.

(** The record built in the [else] branch of [rb_yjit_add_frame]. *)
Definition new_frame_info (frame : Z) : frame_info :=
  let frame_info0 : frame_info := ∅ in
  let name := rb_profile_frame_full_label P frame in
  let file := rb_profile_frame_absolute_path P frame in
  let line := rb_profile_frame_first_lineno P frame in
  let file := match file with RNil => rb_profile_frame_path P frame | _ => file end in
  let frame_info1 := <["name" := name]> frame_info0 in
  let frame_info2 := <["file" := file]> frame_info1 in
  let frame_info3 := <["samples" := RInt (INT2NUM 0)]> frame_info2 in
  let frame_info4 := <["total_samples" := RInt (INT2NUM 0)]> frame_info3 in
  let frame_info5 := <["edges" := rb_hash_new]> frame_info4 in
  let frame_info6 := <["lines" := rb_hash_new]> frame_info5 in
  match line with
  | RInt 0 => frame_info6
  | _ => <["line" := line]> frame_info6
  end.

(** A stored record is a hash, hence true for [RTEST]; only an absent key
    reads as nil. *)
Definition rb_yjit_add_frame (hash : gmap Z frame_info) (frame : Z) : gmap Z frame_info :=
  let frame_id := PTR2NUM frame in
  match hash !! frame_id with
  | Some _ => hash
  | None => <[frame_id := new_frame_info frame]> hash
  end.

(** [for (int o = 0; o < num; o++)], given the number of turns left. *)
Fixpoint add_frames_loop (turns : nat) (yjit_raw_samples yjit_line_samples : list Z)
    (st : export_state) : res export_state :=
  match turns with
  | O => Done st
  | S turns' =>
      f ← array_get yjit_raw_samples (idx st);
      let frames1 := rb_yjit_add_frame (frames st) f in
      let raw1 := rb_ary_push (raw_samples st) (SIZET2NUM f) in
      l ← array_get yjit_line_samples (idx st);
      let line1 := rb_ary_push (line_samples st) (INT2NUM l) in
      add_frames_loop turns' yjit_raw_samples yjit_line_samples
        (mkExport (idx st + 1) raw1 line1 frames1)
  end.

(** One copy of the pair of pushes that end the body of the [while]. *)
Definition push_pair (yjit_raw_samples yjit_line_samples : list Z) (st : export_state)
  : res export_state :=
  r ← array_get yjit_raw_samples (idx st);
  let raw1 := rb_ary_push (raw_samples st) (SIZET2NUM r) in
  l ← array_get yjit_line_samples (idx st);
  let line1 := rb_ary_push (line_samples st) (INT2NUM l) in
  Done (mkExport (idx st + 1) raw1 line1 (frames st)).

(** The body of the [while]. *)
Definition export_sample (yjit_raw_samples yjit_line_samples : list Z) (st : export_state)
  : res export_state :=
  v ← array_get yjit_raw_samples (idx st);
  let num := to_int v in
  l ← array_get yjit_line_samples (idx st);
  let line_num := to_int l in
  let raw1 := rb_ary_push (raw_samples st) (SIZET2NUM num) in
  let line1 := rb_ary_push (line_samples st) (INT2NUM line_num) in
  st1 ← add_frames_loop (Z.to_nat num) yjit_raw_samples yjit_line_samples
          (mkExport (idx st + 1) raw1 line1 (frames st));
  st2 ← push_pair yjit_raw_samples yjit_line_samples st1;
  push_pair yjit_raw_samples yjit_line_samples st2.

(** [while (idx < samples_len)], bounded by [fuel] turns. *)
Fixpoint export_loop (fuel : nat) (yjit_raw_samples yjit_line_samples : list Z)
    (samples_len : Z) (st : export_state) : res export_state :=
  if idx st <? samples_len then
    match fuel with
    | O => Fault OutOfFuel
    | S fuel' =>
        st' ← export_sample yjit_raw_samples yjit_line_samples st;
        export_loop fuel' yjit_raw_samples yjit_line_samples samples_len st'
    end
  else Done st.

(** The two result arrays are allocated with capacity [samples_len] before
    the loop; every turn of the loop moves [idx] forward, so [samples_len]
    turns are enough. *)
Definition rb_yjit_exit_locations_dict
    (yjit_raw_samples yjit_line_samples : list Z) (samples_len : Z) : res exit_locations :=
  raw_samples0 ← rb_ary_new_capa samples_len;
  line_samples0 ← rb_ary_new_capa samples_len;
  st ← export_loop (Z.to_nat samples_len) yjit_raw_samples yjit_line_samples samples_len
         (mkExport 0 raw_samples0 line_samples0 ∅);
  Done (mkExit (raw_samples st) (line_samples st) (frames st)).

End WithProfile.

(** One stack sample as the recorder lays it out: the number of frames,
    the frames, and two trailing entries. *)
Record stack_sample : Type := mkSample {
  sample_stack : list Z;
  sample_tail1 : Z;
  sample_tail2 : Z
}.

Definition encode_sample (s : stack_sample) : list Z :=
  Z.of_nat (length (sample_stack s)) :: sample_stack s ++ [sample_tail1 s; sample_tail2 s].

Definition encode_samples (ss : list stack_sample) : list Z :=
  concat (map encode_sample ss).

(** The frames observed across the samples, in order, with repeats. *)
Definition observed_frames (ss : list stack_sample) : list Z :=
  concat (map sample_stack ss).

(** A profile to run the export on. *)
Definition sample_profile : profile_frames :=
  mkProfile (fun f => RStr "m") (fun _ => RNil) (fun f => RInt (f mod 2)) (fun _ => RStr "a.rb").

(** The objects that a walk from [vstart] visits in [n] turns. *)
Definition walk_objects (vstart stride : Z) (n : nat) : list Z :=
  map (fun i => vstart + Z.of_nat i * stride) (seq 0 n).

(** What the callback leaves in its data when it is applied, in order, to
    each of [iseqs]: every application finds its own object unpoisoned,
    every other object poisoned as in [poisoned], and the data as the
    application before it left them. *)
Definition run_callbacks {U : Type} (callback : Z -> walk_state U -> walk_state U)
    (poisoned : gset Z) (iseqs : list Z) (d : U) : U :=
  foldl (fun d v => cb_data (callback v (mkWalk (poisoned ∖ {[v]}) d))) d iseqs.


(** Three recorded samples: the frame 7 twice in one stack, the frame 9
    in two stacks, and one empty stack. *)
Definition sample_stacks : list stack_sample :=
  [mkSample [7; 9; 7] 55 1; mkSample [] 3 1; mkSample [9; 11] 4 2].

(** The line numbers recorded along with [sample_stacks]. *)
Definition sample_lines : list Z := [3; 10; 20; 10; 55; 1; 0; 3; 1; 2; 21; 30; 4; 2].

(** A kernel that refuses every change of protection outside the page at
    4096. *)
Definition sample_kernel : list os_call -> Z -> Z -> Z -> Z :=
  fun _ addr _ _ => if addr =? 4096 then 0 else -1.

(** A generator that compiles the iseqs with an even address only, and
    raises a barrier of its own. *)
Definition sample_generator : Z -> Z -> vm -> Z * vm :=
  fun iseq _ w => (if Z.even iseq then 4096 + iseq else 0, rb_vm_barrier w).

(** A callback that records the iseqs it is given. *)
Definition sample_callback : Z -> walk_state (list Z) -> walk_state (list Z) :=
  fun v w => mkWalk (asan_poisoned w) (v :: cb_data w).

(** An iseq of the leaf shape whose [builtin_inline_p] flag is not set. *)
Definition sample_body : rb_iseq_constant_body := mkBody 4 [100; 777; 0; 60] false.

(** *** Page size and address-space reservation *)

(** [rb_yjit_get_page_size], given what [sysconf(_SC_PAGESIZE)] answers (a
    [long]). *)
Definition rb_yjit_get_page_size (sysconf_pagesize : Z) : outcome Z :=
  let page_size := sysconf_pagesize in
  if page_size <=? 0 then Aborted
  else if 1073741824 <? page_size then Aborted
  else Returned (wrap32 page_size).

(** [align_ptr]; the remainder by a zero [multiple] is undefined
    ([None]). *)
Definition align_ptr (ptr multiple : Z) : option Z :=
  if multiple =? 0 then None
  else
    let rem := wrap32 (wrap64 ptr) mod multiple in
    if rem =? 0 then Some ptr
    else
      let pad := wrap32 (multiple - rem) in
      Some (wrap64 (ptr + pad)).

Definition INT32_MAX : Z := 2 ^ 31 - 1.
Definition MAP_FAILED : Z := 2 ^ 64 - 1.
Definition PROT_NONE : Z := 0.
Definition MAP_PRIVATE : Z := 2.
Definition MAP_ANONYMOUS : Z := 32.
Definition MAP_FIXED_NOREPLACE : Z := 1048576.

(** What the reservation asks of the operating system, oldest first. *)
Inductive reserve_call : Type :=
| Mmap (addr len prot flags : Z)
| Perror (msg : string).

(** Why the model of the reservation gives no result. *)
Inductive reserve_fault : Type := DivisionByZero | ProbeOutOfFuel.

Section WithMmap.

(** What the kernel answers to [mmap], given the calls made before: the
    address of the mapping, or [MAP_FAILED]. *)
Variable mmap_ret : list reserve_call -> Z -> Z -> Z -> Z -> Z.

Definition mmap (addr len prot flags : Z) (tr : list reserve_call)
  : Z * list reserve_call :=
  (mmap_ret tr addr len prot flags, tr ++ [Mmap addr len prot flags]).

(** The [do ... while (req_addr < probe_region_end)] loop, bounded by
    [fuel] turns: the last [mem_block] and the calls made. *)
Fixpoint reserve_probe_loop (fuel : nat) (req_addr probe_region_end mem_size : Z)
    (tr : list reserve_call) : option (Z * list reserve_call) :=
  match fuel with
  | O => None
  | S fuel' =>
      let '(mem_block, tr1) :=
        mmap req_addr mem_size PROT_NONE
          (Z.lor (Z.lor MAP_PRIVATE MAP_ANONYMOUS) MAP_FIXED_NOREPLACE) tr in
      if negb (mem_block =? MAP_FAILED) then Some (mem_block, tr1)
      else
        let req_addr1 := wrap64 (req_addr + 4 * 1024 * 1024) in
        if req_addr1 <? probe_region_end
        then reserve_probe_loop fuel' req_addr1 probe_region_end mem_size tr1
        else Some (mem_block, tr1)
  end.

(** [rb_yjit_reserve_addr_space] on Linux, given the answer of
    [sysconf(_SC_PAGESIZE)] and the address of the function itself. *)
Definition rb_yjit_reserve_addr_space (fuel : nat)
    (sysconf_pagesize cfunc_sample_addr mem_size : Z) (tr : list reserve_call)
  : reserve_fault + (outcome Z * list reserve_call) :=
  let page_size := wrap32 sysconf_pagesize in
  let probe_region_end := wrap64 (cfunc_sample_addr + INT32_MAX) in
  match align_ptr cfunc_sample_addr page_size with
  | None => inl DivisionByZero
  | Some req_addr =>
      match reserve_probe_loop fuel req_addr probe_region_end mem_size tr with
      | None => inl ProbeOutOfFuel
      | Some (mem_block, tr1) =>
          let '(mem_block1, tr2) :=
            if mem_block =? MAP_FAILED
            then mmap 0 mem_size PROT_NONE (Z.lor MAP_PRIVATE MAP_ANONYMOUS) tr1
            else (mem_block, tr1) in
          if mem_block1 =? MAP_FAILED
          then inr (Aborted, tr2 ++ [Perror "ruby: yjit: mmap:"])
          else inr (Returned mem_block1, tr2)
      end
  end.

End WithMmap.

(** Every [mmap] call among [calls], made in this order after the calls
    [tr], is answered [MAP_FAILED]. *)
Fixpoint all_failed (mmap_ret : list reserve_call -> Z -> Z -> Z -> Z -> Z)
    (tr calls : list reserve_call) : Prop :=
  match calls with
  | [] => True
  | Mmap a l p f :: rest =>
      mmap_ret tr a l p f = MAP_FAILED /\
      all_failed mmap_ret (tr ++ [Mmap a l p f]) rest
  | Perror m :: rest => all_failed mmap_ret (tr ++ [Perror m]) rest
  end.

(** The flags of a probe. *)
Definition probe_flags : Z :=
  Z.lor (Z.lor MAP_PRIVATE MAP_ANONYMOUS) MAP_FIXED_NOREPLACE.

(** A probe for [mem_size] bytes at an address from [lo] up to, not
    including, [hi]. *)
Definition probe_between (mem_size lo hi : Z) (c : reserve_call) : Prop :=
  exists a, c = Mmap a mem_size PROT_NONE probe_flags /\ lo <= a < hi.

(** A kernel that maps only at or above the address 8 MiB past 4096, and
    only where it is asked to. *)
Definition sample_mmap : list reserve_call -> Z -> Z -> Z -> Z -> Z :=
  fun _ addr _ _ _ => if 4096 + 8 * 1024 * 1024 <=? addr then addr else MAP_FAILED.

(** *** Tracing of C methods *)

(** [rb_c_method_tracing_currently_enabled]: the two event bits come from a
    header that is not part of these files and are parameters;
    [multi_ractor] is [rb_multi_ractor_p()], [global_flags] is
    [ruby_vm_event_enabled_global_flags] and [hooks_events] is
    [rb_ec_ractor_hooks(ec)->events].  The result is the conversion of the
    masked flags to [bool]. *)
Definition rb_c_method_tracing_currently_enabled
    (RUBY_EVENT_C_CALL RUBY_EVENT_C_RETURN : Z)
    (multi_ractor : bool) (global_flags hooks_events : Z) : bool :=
  let tracing_events := if multi_ractor then global_flags else hooks_events in
  negb (Z.land tracing_events (Z.lor RUBY_EVENT_C_CALL RUBY_EVENT_C_RETURN) =? 0).

(** *** Iseq payload and program counters *)

(** An iseq object: whether it is an imemo of type iseq, its
    [ISEQ_TRANSLATED] flag, and its body (absent while the iseq is under
    construction) with the fields read by the detection, the YJIT payload
    and the entry pointer (0 is NULL). *)
Record iseq_body : Type := mkIseqBody {
  body_code : rb_iseq_constant_body;
  yjit_payload : Z;
  body_jit_func : Z
}.

Record rb_iseq_t : Type := mkIseq {
  imemo_iseq_p : bool;
  iseq_translated_p : bool;
  body : option iseq_body
}.

(** [RUBY_ASSERT_ALWAYS] ends the process when its condition is false. *)
Definition rb_iseq_get_yjit_payload (iseq : rb_iseq_t) : outcome Z :=
  if negb (imemo_iseq_p iseq) then Aborted
  else
    match body iseq with
    | Some b => Returned (yjit_payload b)
    | None => Returned 0
    end.

Definition rb_iseq_set_yjit_payload (iseq : rb_iseq_t) (payload : Z) : outcome rb_iseq_t :=
  if negb (imemo_iseq_p iseq) then Aborted
  else
    match body iseq with
    | None => Aborted
    | Some b =>
        if negb (yjit_payload b =? 0) then Aborted
        else
          Returned (mkIseq (imemo_iseq_p iseq) (iseq_translated_p iseq)
                      (Some (mkIseqBody (body_code b) payload (body_jit_func b))))
    end.

(** A program counter of an iseq is the index of a word of its
    [iseq_encoded]; [insn_idx] is a [uint32_t].  A null body is
    dereferenced: undefined ([None]). *)
Definition rb_iseq_pc_at_idx (iseq : rb_iseq_t) (insn_idx : Z) : option (outcome Z) :=
  if negb (imemo_iseq_p iseq) then Some Aborted
  else
    match body iseq with
    | None => None
    | Some b =>
        if negb (insn_idx <? iseq_size (body_code b)) then Some Aborted
        else Some (Returned insn_idx)
    end.

(** [*pc] is read in the iseq's own [iseq_encoded]; outside it the read is
    undefined ([None]). *)
Definition rb_iseq_opcode_at_pc (T : insn_table) (iseq : rb_iseq_t) (pc : Z)
  : option (outcome Z) :=
  if negb (iseq_translated_p iseq) then Some Aborted
  else
    match body iseq with
    | None => None
    | Some b =>
        if pc <? 0 then None
        else
          match iseq_encoded (body_code b) !! Z.to_nat pc with
          | None => None
          | Some at_pc => Some (Returned (rb_vm_insn_addr2opcode T at_pc))
          end
    end.

(** *** Frames *)

Record rb_control_frame_struct : Type := mkCfp {
  cfp_pc : Z;
  cfp_sp : Z;
  cfp_iseq : Z;
  cfp_self : Z;
  cfp_ep : Z
}.

Section WithEnv.

(** [VM_ENV_PREV_EP] comes from a header that is not part of these files;
    it is a parameter. *)
Variable VM_ENV_PREV_EP : Z -> Z.

(** [for (i = 0; i < lv; i++) ep = VM_ENV_PREV_EP(ep);], given the number
    of turns left. *)
Fixpoint ep_hops (turns : nat) (ep : Z) : Z :=
  match turns with
  | O => ep
  | S turns' => ep_hops turns' (VM_ENV_PREV_EP ep)
  end.

(** [lv] is a [uint32_t]. *)
Definition rb_get_cfp_ep_level (cfp : rb_control_frame_struct) (lv : Z) : Z :=
  ep_hops (Z.to_nat lv) (cfp_ep cfp).

End WithEnv.

(** A translated iseq of the leaf shape with an empty payload slot. *)
Definition sample_iseq : rb_iseq_t :=
  mkIseq true true (Some (mkIseqBody (mkBody 4 [100; 777; 0; 60] true) 0 0)).

(** Environments laid out 64 bytes apart, each below its successor. *)
Definition sample_prev_ep : Z -> Z := fun ep => ep - 64.

(** The visits of the objects [objs], left to right: the iseqs handed to
    the callback, in order, and the state after the last visit. *)
Fixpoint walk_visits {U : Type} (rb_obj_is_iseq : Z -> bool)
    (callback : Z -> walk_state U -> walk_state U) (objs : list Z) (w : walk_state U)
  : list Z * walk_state U :=
  match objs with
  | [] => ([], w)
  | v :: rest =>
      let '(called, w1) := for_each_iseq_visit rb_obj_is_iseq callback v w in
      let '(calls, w2) := walk_visits rb_obj_is_iseq callback rest w1 in
      (called ++ calls, w2)
  end.

(** A [VALUE], and an [int]. *)
Definition is_value (x : Z) : Prop := 0 <= x < 2 ^ 64.
Definition is_int (x : Z) : Prop := - 2 ^ 31 <= x < 2 ^ 31.

(** The output arrays hold the entries of the input arrays below [idx]. *)
Definition copied_so_far (yjit_raw_samples yjit_line_samples : list Z)
    (st : export_state) : Prop :=
  raw_samples st = take (Z.to_nat (idx st)) yjit_raw_samples /\
  line_samples st = take (Z.to_nat (idx st)) yjit_line_samples.

End Yjit.

(** * Properties *)

(** ** mmtk_gc_impl.c *)

(** Boolean comparisons as propositions, for [lia]. *)
Ltac zbool :=
  repeat match goal with
  | H : _ && _ = true |- _ => apply andb_prop in H as [? ?]
  | H : (_ <=? _) = true |- _ => apply Z.leb_le in H
  | H : (_ <? _) = true |- _ => apply Z.ltb_lt in H
  | H : (_ <=? _) = false |- _ => apply Z.leb_gt in H
  | H : (_ <? _) = false |- _ => apply Z.ltb_ge in H
  | H : (_ =? _) = true |- _ => apply Z.eqb_eq in H
  | H : (_ =? _) = false |- _ => apply Z.eqb_neq in H
  end.

Ltac zbool_true :=
  symmetry; rewrite ?andb_true_iff, ?Z.leb_le, ?Z.ltb_lt, ?Z.eqb_eq.

Section MmtkProperties.

Import Mmtk.

Lemma load_bytes_length (h : heap) (p : pointer) (n : Z) (data : list byte) :
  load_bytes h p n = Some data -> 0 <= n /\ length data = Z.to_nat n.
Proof.
  unfold load_bytes. destruct p as [|b off]; [discriminate|].
  destruct (blocks h !! b) as [bs|]; [|discriminate].
  destruct ((0 <=? off) && (0 <=? n) && (off + n <=? Z.of_nat (length bs))) eqn:E;
    [|discriminate].
  intros [= <-]. zbool. rewrite length_take, length_drop. lia.
Qed.

Lemma load_bytes_prefix (h : heap) (p : pointer) (n m : Z) (data : list byte) :
  load_bytes h p n = Some data -> 0 <= m <= n ->
  load_bytes h p m = Some (take (Z.to_nat m) data).
Proof.
  unfold load_bytes. destruct p as [|b off]; [discriminate|].
  destruct (blocks h !! b) as [bs|]; [|discriminate].
  destruct ((0 <=? off) && (0 <=? n) && (off + n <=? Z.of_nat (length bs))) eqn:E;
    [|discriminate].
  intros [= <-] Hm. zbool.
  replace ((0 <=? off) && (0 <=? m) && (off + m <=? Z.of_nat (length bs))) with true
    by (zbool_true; lia).
  f_equal. rewrite take_take. f_equal. lia.
Qed.

(** Reading depends on the blocks only. *)
Lemma load_bytes_blocks (h h' : heap) (p : pointer) (n : Z) :
  (forall b off, p = Ptr b off -> blocks h' !! b = blocks h !! b) ->
  load_bytes h' p n = load_bytes h p n.
Proof.
  intros Hb. destruct p as [|b off]; [reflexivity|].
  unfold load_bytes. rewrite (Hb b off eq_refl). reflexivity.
Qed.

Lemma load_bytes_block_exists (h : heap) (b off n : Z) (data : list byte) :
  load_bytes h (Ptr b off) n = Some data -> is_Some (blocks h !! b).
Proof.
  unfold load_bytes. destruct (blocks h !! b); [eauto | discriminate].
Qed.

(** The bytes at the start of a block. *)
Lemma load_bytes_at_start (h : heap) (b n : Z) (data rest : list byte) :
  blocks h !! b = Some (data ++ rest) -> length data = Z.to_nat n -> 0 <= n ->
  load_bytes h (Ptr b 0) n = Some data.
Proof.
  intros Hb Hlen Hn. unfold load_bytes. rewrite Hb.
  replace ((0 <=? 0) && (0 <=? n) && (0 + n <=? Z.of_nat (length (data ++ rest))))
    with true by (zbool_true; rewrite length_app; lia).
  f_equal. simpl. rewrite <- Hlen. apply take_app_length.
Qed.

(** The first half of the attach: the new buffer holds the source bytes,
    then what the allocator delivered, and nothing else changed. *)
Lemma new_strbuf_copy_fill_spec (alloc : allocator) (h : heap) (capa : Z)
    (src : pointer) (copy_size : Z) (data : list byte) :
  allocator_ok alloc ->
  copy_size <= capa ->
  load_bytes h src copy_size = Some data ->
  exists init h2,
    new_strbuf_copy_fill alloc capa src copy_size h = Some ((alloc capa h).1, h2) /\
    blocks h !! (alloc capa h).1 = None /\
    blocks (alloc capa h).2 !! (alloc capa h).1 = Some init /\
    length init = Z.to_nat capa /\
    blocks h2 =
      <[(alloc capa h).1 := data ++ drop (Z.to_nat copy_size) init]> (blocks h) /\
    strings h2 = strings h.
Proof.
  intros Hok Hle Hload.
  destruct (load_bytes_length _ _ _ _ Hload) as [Hn Hlen].
  destruct (Hok capa h ltac:(lia)) as (init & Hfresh & Hinit & Hblocks & Hstrings).
  unfold new_strbuf_copy_fill.
  destruct (alloc capa h) as [strbuf h1] eqn:Ealloc. simpl in *.
  destruct src as [|bs os]; [discriminate|].
  assert (Hne : strbuf <> bs).
  { intros ->. destruct (load_bytes_block_exists _ _ _ _ _ Hload) as [x Hx]. congruence. }
  replace (capa <? copy_size) with false by (symmetry; apply Z.ltb_ge; lia).
  unfold memcpy, rb_mmtk_strbuf_to_chars, overlap.
  rewrite bool_decide_eq_false_2 by exact Hne. cbn [andb].
  rewrite (load_bytes_blocks h h1) by
    (intros b off [= <- <-]; rewrite Hblocks; apply lookup_insert_ne; exact Hne).
  rewrite Hload. unfold store_bytes.
  rewrite Hblocks, lookup_insert_eq.
  replace ((0 <=? 0) && (0 + Z.of_nat (length data) <=? Z.of_nat (length init)))
    with true by (zbool_true; lia).
  eexists init, _. split; [reflexivity|].
  split; [assumption|]. split; [reflexivity|]. split; [assumption|].
  split; [|assumption].
  simpl. rewrite insert_insert_eq, Hlen. reflexivity.
Qed.

(** The second half of the attach writes the two slots of the owner and
    no byte. *)
Lemma new_strbuf_attach_spec (str strbuf : Z) (h : heap) (r : RString) :
  strings h !! str = Some r ->
  exists h',
    new_strbuf_attach str strbuf h = Some h' /\
    blocks h' = blocks h /\
    strings h' =
      <[str := mkRString (Ptr strbuf 0) (as_heap_aux_capa r) strbuf]> (strings h).
Proof.
  intros Hr. unfold new_strbuf_attach, set_as_heap_ptr, rb_mmtk_str_set_strbuf.
  rewrite Hr. simpl. rewrite lookup_insert_eq. simpl.
  eexists. split; [reflexivity|]. simpl. split; [reflexivity|].
  apply insert_insert_eq.
Qed.

(** The whole attach, for any readable source. *)
Lemma new_strbuf_copy_impl_spec (alloc : allocator) (h : heap) (str : Z) (r : RString)
    (capa src_obj : Z) (src : pointer) (copy_size : Z) (data : list byte) :
  allocator_ok alloc ->
  strings h !! str = Some r ->
  copy_size <= capa ->
  load_bytes h src copy_size = Some data ->
  exists init,
    blocks h !! (alloc capa h).1 = None /\
    blocks (alloc capa h).2 !! (alloc capa h).1 = Some init /\
    length init = Z.to_nat capa /\
    rb_mmtk_str_new_strbuf_copy_impl alloc str capa src_obj src copy_size h =
      Some (mkHeap
              (<[(alloc capa h).1 := data ++ drop (Z.to_nat copy_size) init]> (blocks h))
              (<[str := mkRString (Ptr (alloc capa h).1 0) (as_heap_aux_capa r)
                          (alloc capa h).1]> (strings h))).
Proof.
  intros Hok Hr Hle Hload.
  destruct (new_strbuf_copy_fill_spec alloc h capa src copy_size data Hok Hle Hload)
    as (init & h2 & Hfill & Hfresh & Hinit & Hlen & Hblocks & Hstrings).
  exists init. repeat split; try assumption.
  unfold rb_mmtk_str_new_strbuf_copy_impl. rewrite Hfill.
  rewrite <- Hstrings in Hr.
  destruct (new_strbuf_attach_spec str (alloc capa h).1 h2 r Hr) as (h' & Hatt & Hb & Hs).
  rewrite Hatt. f_equal. destruct h' as [bl st]. simpl in *. subst bl st.
  rewrite Hblocks, Hstrings. reflexivity.
Qed.

Lemma bump_new_strbuf_ok : allocator_ok bump_new_strbuf.
Proof.
  intros capa h Hcapa. exists (replicate (Z.to_nat capa) x00).
  unfold bump_new_strbuf. simpl. repeat split.
  - apply not_elem_of_dom. apply is_fresh.
  - apply length_replicate.
Qed.

(** On a source outside the strings the attach over the embedded bytes is
    the attach above; the owner's embedded bytes, if it had any, are gone
    after it. *)
Lemma attach_in_struct_outside (alloc : allocator) (h : heap) (e : gmap Z (list byte))
    (str capa src_obj : Z) (p : pointer) (copy_size : Z) :
  InStruct.rb_mmtk_str_new_strbuf_copy_impl alloc str capa src_obj (InStruct.Outside p)
    copy_size (InStruct.mkObjHeap h e) =
  match rb_mmtk_str_new_strbuf_copy_impl alloc str capa src_obj p copy_size h with
  | None => None
  | Some h' => Some (InStruct.mkObjHeap h' (delete str e))
  end.
Proof.
  unfold InStruct.rb_mmtk_str_new_strbuf_copy_impl, rb_mmtk_str_new_strbuf_copy_impl,
    new_strbuf_copy_fill, new_strbuf_attach, InStruct.memcpy, InStruct.set_as_heap_ptr,
    InStruct.rb_mmtk_str_set_strbuf, InStruct.set_outer.
  cbn [InStruct.outer InStruct.embed_ary].
  destruct (alloc capa h) as [strbuf h1].
  assert (Hwrite : forall h2,
    match
      match set_as_heap_ptr str (rb_mmtk_strbuf_to_chars strbuf) h2 with
      | None => None
      | Some h3 => Some (InStruct.mkObjHeap h3 (delete str e))
      end
    with
    | None => None
    | Some s3 =>
        match rb_mmtk_str_set_strbuf str strbuf (InStruct.outer s3) with
        | None => None
        | Some h4 => Some (InStruct.mkObjHeap h4 (delete str (InStruct.embed_ary s3)))
        end
    end =
    match
      match set_as_heap_ptr str (rb_mmtk_strbuf_to_chars strbuf) h2 with
      | None => None
      | Some h3 => rb_mmtk_str_set_strbuf str strbuf h3
      end
    with
    | None => None
    | Some h' => Some (InStruct.mkObjHeap h' (delete str e))
    end).
  { intros h2. destruct (set_as_heap_ptr str (rb_mmtk_strbuf_to_chars strbuf) h2) as [h3|];
      [|reflexivity].
    cbn [InStruct.outer InStruct.embed_ary].
    destruct (rb_mmtk_str_set_strbuf str strbuf h3); [|reflexivity].
    rewrite delete_delete_eq. reflexivity. }
  destruct p as [|b off].
  - apply Hwrite.
  - destruct (capa <? copy_size); [reflexivity|].
    destruct (memcpy (rb_mmtk_strbuf_to_chars strbuf) (Ptr b off) copy_size h1) as [h2|];
      [|reflexivity].
    cbn [InStruct.outer InStruct.embed_ary]. apply Hwrite.
Qed.

(** The attach over the embedded bytes, for any readable source. *)
Lemma attach_in_struct_spec (alloc : allocator) (s : InStruct.obj_heap) (str : Z)
    (r : RString) (capa src_obj : Z) (src : InStruct.source) (copy_size : Z)
    (data : list byte) :
  allocator_ok alloc ->
  strings (InStruct.outer s) !! str = Some r ->
  copy_size <= capa ->
  InStruct.load_source s src copy_size = Some data ->
  exists init,
    blocks (InStruct.outer s) !! (alloc capa (InStruct.outer s)).1 = None /\
    blocks (alloc capa (InStruct.outer s)).2 !! (alloc capa (InStruct.outer s)).1
      = Some init /\
    length init = Z.to_nat capa /\
    0 <= copy_size /\
    length data = Z.to_nat copy_size /\
    InStruct.rb_mmtk_str_new_strbuf_copy_impl alloc str capa src_obj src copy_size s =
      Some (InStruct.mkObjHeap
              (mkHeap
                 (<[(alloc capa (InStruct.outer s)).1 :=
                      data ++ drop (Z.to_nat copy_size) init]> (blocks (InStruct.outer s)))
                 (<[str := mkRString (Ptr (alloc capa (InStruct.outer s)).1 0)
                             (as_heap_aux_capa r) (alloc capa (InStruct.outer s)).1]>
                    (strings (InStruct.outer s))))
              (delete str (InStruct.embed_ary s))).
Proof.
  intros Hok Hr Hle Hload. destruct s as [h e]. cbn [InStruct.outer InStruct.embed_ary] in *.
  destruct src as [p | str0 off].
  - cbn [InStruct.load_source InStruct.outer] in Hload.
    destruct (load_bytes_length _ _ _ _ Hload) as [Hn Hlen].
    destruct (new_strbuf_copy_impl_spec alloc h str r capa src_obj p copy_size data
                Hok Hr Hle Hload) as (init & Hfresh & Hinit & Hilen & Himpl).
    exists init. split; [exact Hfresh|]. split; [exact Hinit|]. split; [exact Hilen|].
    split; [exact Hn|]. split; [exact Hlen|].
    rewrite attach_in_struct_outside, Himpl. reflexivity.
  - cbn [InStruct.load_source InStruct.embed_ary] in Hload.
    destruct (e !! str0) as [bs|] eqn:Ebs; [|discriminate].
    destruct ((0 <=? off) && (0 <=? copy_size) && (off + copy_size <=? Z.of_nat (length bs)))
      eqn:Erange; [|discriminate].
    injection Hload as Hdata.
    assert (Hlen : length data = Z.to_nat copy_size).
    { subst data. zbool. rewrite length_take, length_drop. lia. }
    assert (Hn : 0 <= copy_size) by (zbool; lia).
    destruct (Hok capa h ltac:(lia)) as (init & Hfresh & Hilen & Hblocks & Hstrings).
    exists init. split; [exact Hfresh|].
    split; [rewrite Hblocks; apply lookup_insert_eq|].
    split; [exact Hilen|]. split; [exact Hn|]. split; [exact Hlen|].
    unfold InStruct.rb_mmtk_str_new_strbuf_copy_impl. cbn [InStruct.outer].
    destruct (alloc capa h) as [strbuf h1]. cbn [fst snd] in *.
    replace (capa <? copy_size) with false by (symmetry; apply Z.ltb_ge; lia).
    unfold InStruct.memcpy, InStruct.load_source, InStruct.set_outer.
    cbn [InStruct.outer InStruct.embed_ary].
    rewrite Ebs, Erange, Hdata.
    unfold store_bytes, rb_mmtk_strbuf_to_chars. rewrite Hblocks, lookup_insert_eq.
    replace ((0 <=? 0) && (0 + Z.of_nat (length data) <=? Z.of_nat (length init)))
      with true by (zbool_true; lia).
    unfold InStruct.set_as_heap_ptr, set_as_heap_ptr.
    cbn [InStruct.outer InStruct.embed_ary set_blocks strings blocks].
    rewrite Hstrings, Hr.
    unfold InStruct.rb_mmtk_str_set_strbuf, rb_mmtk_str_set_strbuf.
    cbn [InStruct.outer InStruct.embed_ary set_strings strings blocks].
    rewrite lookup_insert_eq. cbn [as_heap_ptr as_heap_aux_capa ext_strbuf].
    rewrite delete_delete_eq, !insert_insert_eq, Hlen. reflexivity.
Qed.

(** C1. [rb_mmtk_str_new_strbuf_copy_impl] copies all [copy_size] source
    bytes into the new buffer before it writes the owner's content
    pointer and buffer slot.  The heap here holds the bytes that lie
    inside the strings themselves, so the order shows: those of the owner
    are gone as soon as its header is written (last part), and yet a
    source inside the owner, like one in the owner's current buffer, gives
    the same result as a source with the same bytes in another object.
    The call returns, the new buffer is a block that did not exist, has
    [capa] bytes and starts with the source bytes, and the header of the
    owner names it. *)
Theorem attach_copies_source_before_owner_update
    (alloc : allocator) (s : InStruct.obj_heap) (str : Z) (r : RString)
    (capa src_obj src_obj' : Z) (src src' : InStruct.source) (copy_size : Z)
    (data : list byte) :
  allocator_ok alloc ->
  strings (InStruct.outer s) !! str = Some r ->
  copy_size <= capa ->
  InStruct.load_source s src copy_size = Some data ->
  InStruct.load_source s src' copy_size = Some data ->
  exists strbuf rest s',
    InStruct.rb_mmtk_str_new_strbuf_copy_impl alloc str capa src_obj src copy_size s
      = Some s' /\
    InStruct.rb_mmtk_str_new_strbuf_copy_impl alloc str capa src_obj' src' copy_size s
      = Some s' /\
    blocks (InStruct.outer s) !! strbuf = None /\
    blocks (InStruct.outer s') !! strbuf = Some (data ++ rest) /\
    length data = Z.to_nat copy_size /\
    length (data ++ rest) = Z.to_nat capa /\
    InStruct.load_source s' (InStruct.Outside (Ptr strbuf 0)) copy_size = Some data /\
    strings (InStruct.outer s') !! str =
      Some (mkRString (Ptr strbuf 0) (as_heap_aux_capa r) strbuf) /\
    (forall off n, InStruct.load_source s' (InStruct.Inside str off) n = None) /\
    (forall chars s1 off n,
       InStruct.set_as_heap_ptr str chars s = Some s1 ->
       InStruct.load_source s1 (InStruct.Inside str off) n = None).
Proof.
  intros Hok Hr Hle Hload Hload'.
  destruct (attach_in_struct_spec alloc s str r capa src_obj src copy_size data
              Hok Hr Hle Hload) as (init & Hfresh & Hinit & Hilen & Hn & Hlen & Himpl).
  destruct (attach_in_struct_spec alloc s str r capa src_obj' src' copy_size data
              Hok Hr Hle Hload') as (init' & _ & Hinit' & _ & _ & _ & Himpl').
  assert (init' = init) by congruence. subst init'.
  exists (alloc capa (InStruct.outer s)).1, (drop (Z.to_nat copy_size) init). eexists.
  split; [exact Himpl|]. split; [exact Himpl'|].
  cbn [InStruct.outer InStruct.embed_ary blocks strings InStruct.load_source].
  split; [exact Hfresh|].
  split; [apply lookup_insert_eq|].
  split; [exact Hlen|].
  split; [rewrite length_app, length_drop; lia|].
  split.
  { apply (load_bytes_at_start _ _ _ data (drop (Z.to_nat copy_size) init));
      [apply lookup_insert_eq | exact Hlen | lia]. }
  split; [apply lookup_insert_eq|].
  split; [intros off n; rewrite lookup_delete_eq; reflexivity|].
  intros chars s1 off n Hset. unfold InStruct.set_as_heap_ptr in Hset.
  destruct (set_as_heap_ptr str chars (InStruct.outer s)) as [h1|]; [|discriminate].
  injection Hset as <-. cbn [InStruct.load_source InStruct.embed_ary].
  rewrite lookup_delete_eq. reflexivity.
Qed.

(** The embedded string 200 gets a buffer of 32 bytes and copies its ten
    bytes out of itself, and alternatively out of block 2; then the same
    for the owner 100 of [sample_heap], out of its current buffer. *)
Lemma attach_copies_source_before_owner_update_witness :
  (exists strbuf rest s',
    InStruct.rb_mmtk_str_new_strbuf_copy_impl bump_new_strbuf 200 32 200
      (InStruct.Inside 200 0) 10 InStruct.sample_obj_heap = Some s' /\
    InStruct.rb_mmtk_str_new_strbuf_copy_impl bump_new_strbuf 200 32 0
      (InStruct.Outside (Ptr 2 0)) 10 InStruct.sample_obj_heap = Some s' /\
    blocks (InStruct.outer InStruct.sample_obj_heap) !! strbuf = None /\
    blocks (InStruct.outer s') !! strbuf = Some (hello_bytes ++ rest) /\
    length hello_bytes = Z.to_nat 10 /\
    length (hello_bytes ++ rest) = Z.to_nat 32 /\
    InStruct.load_source s' (InStruct.Outside (Ptr strbuf 0)) 10 = Some hello_bytes /\
    strings (InStruct.outer s') !! 200 = Some (mkRString (Ptr strbuf 0) 0 strbuf) /\
    (forall off n, InStruct.load_source s' (InStruct.Inside 200 off) n = None) /\
    (forall chars s1 off n,
       InStruct.set_as_heap_ptr 200 chars InStruct.sample_obj_heap = Some s1 ->
       InStruct.load_source s1 (InStruct.Inside 200 off) n = None)) /\
  (exists s',
    InStruct.rb_mmtk_str_new_strbuf_copy_impl bump_new_strbuf 100 32 1
      (InStruct.Outside (Ptr 1 0)) 10 InStruct.sample_obj_heap = Some s' /\
    InStruct.rb_mmtk_str_new_strbuf_copy_impl bump_new_strbuf 100 32 200
      (InStruct.Inside 200 0) 10 InStruct.sample_obj_heap = Some s').
Proof.
  split.
  - apply (attach_copies_source_before_owner_update
             bump_new_strbuf InStruct.sample_obj_heap 200 (mkRString NULL 0 0) 32 200 0
             (InStruct.Inside 200 0) (InStruct.Outside (Ptr 2 0)) 10 hello_bytes).
    + exact bump_new_strbuf_ok.
    + vm_compute. reflexivity.
    + lia.
    + vm_compute. reflexivity.
    + vm_compute. reflexivity.
  - destruct (attach_copies_source_before_owner_update
                bump_new_strbuf InStruct.sample_obj_heap 100 (mkRString (Ptr 1 0) 16 1)
                32 1 200 (InStruct.Outside (Ptr 1 0)) (InStruct.Inside 200 0) 10
                hello_bytes)
      as (strbuf & rest & s' & Hown & Hother & _).
    + exact bump_new_strbuf_ok.
    + vm_compute. reflexivity.
    + lia.
    + vm_compute. reflexivity.
    + vm_compute. reflexivity.
    + exists s'. split; [exact Hown | exact Hother].
Defined.

(** C3. [rb_mmtk_str_sized_realloc_n_impl] returns normally for every
    [new_size], smaller than [old_size] or not; the new buffer starts with
    the first min(old_size, new_size) bytes of the old one and keeps, after
    them, the bytes the allocator delivered, so exactly that many bytes are
    copied; and the recorded capacity of the owner is [new_size]. *)
Theorem sized_realloc_copies_min_and_sets_capa
    (alloc : allocator) (h : heap) (str : Z) (r : RString) (new_size old_size : Z)
    (old_bytes : list byte) :
  allocator_ok alloc ->
  strings h !! str = Some r ->
  0 <= new_size ->
  load_bytes h (as_heap_ptr r) old_size = Some old_bytes ->
  exists strbuf init h',
    rb_mmtk_str_sized_realloc_n_impl alloc str new_size old_size h = Some h' /\
    blocks h !! strbuf = None /\
    blocks (alloc new_size h).2 !! strbuf = Some init /\
    length init = Z.to_nat new_size /\
    blocks h' !! strbuf =
      Some (take (Z.to_nat (Z.min old_size new_size)) old_bytes ++
            drop (Z.to_nat (Z.min old_size new_size)) init) /\
    strings h' !! str = Some (mkRString (Ptr strbuf 0) new_size strbuf).
Proof.
  intros Hok Hr Hnew Hload.
  destruct (load_bytes_length _ _ _ _ Hload) as [Hold Hlen].
  assert (Hcs : realloc_copy_size new_size old_size = Z.min old_size new_size).
  { unfold realloc_copy_size. destruct (old_size <? new_size) eqn:E; zbool; lia. }
  assert (Hload' : load_bytes h (as_heap_ptr r) (Z.min old_size new_size) =
                   Some (take (Z.to_nat (Z.min old_size new_size)) old_bytes))
    by (apply (load_bytes_prefix h _ old_size); [exact Hload | lia]).
  destruct (new_strbuf_copy_impl_spec alloc h str r new_size (ext_strbuf r) (as_heap_ptr r)
              (Z.min old_size new_size) _ Hok Hr ltac:(lia) Hload')
    as (init & Hfresh & Hinit & Hilen & Himpl).
  unfold rb_mmtk_str_sized_realloc_n_impl. rewrite Hr. cbv zeta. rewrite Hcs, Himpl.
  unfold set_as_heap_aux_capa. simpl. rewrite lookup_insert_eq. simpl.
  eexists (alloc new_size h).1, init, _. split; [reflexivity|]. simpl.
  split; [exact Hfresh|]. split; [exact Hinit|]. split; [exact Hilen|].
  split; [apply lookup_insert_eq|]. apply lookup_insert_eq.
Qed.

(** The 16-byte buffer of the owner 100 is reallocated to 8 bytes. *)
Lemma sized_realloc_copies_min_and_sets_capa_witness :
  exists strbuf init h',
    rb_mmtk_str_sized_realloc_n_impl bump_new_strbuf 100 8 16 sample_heap = Some h' /\
    blocks sample_heap !! strbuf = None /\
    blocks (bump_new_strbuf 8 sample_heap).2 !! strbuf = Some init /\
    length init = Z.to_nat 8 /\
    blocks h' !! strbuf =
      Some (take (Z.to_nat (Z.min 16 8)) (hello_bytes ++ replicate 6 x00) ++
            drop (Z.to_nat (Z.min 16 8)) init) /\
    strings h' !! 100 = Some (mkRString (Ptr strbuf 0) 8 strbuf).
Proof.
  apply (sized_realloc_copies_min_and_sets_capa
           bump_new_strbuf sample_heap 100 (mkRString (Ptr 1 0) 16 1) 8 16
           (hello_bytes ++ replicate 6 x00)).
  - exact bump_new_strbuf_ok.
  - vm_compute. reflexivity.
  - lia.
  - vm_compute. reflexivity.
Defined.

(** C8. With the minimum being the size of [struct RString] plus the size
    of the extension field, [rb_mmtk_string_size_impl] returns a request at
    or above the minimum unchanged and returns the minimum for a smaller
    request; the result is never below the minimum. *)
Theorem string_size_clamps_to_minimum (sizeof_RString sizeof_stringext size : Z) :
  0 <= sizeof_RString ->
  0 <= sizeof_stringext ->
  sizeof_RString + sizeof_stringext < 2 ^ 64 ->
  rb_mmtk_str_heap_size sizeof_RString sizeof_stringext =
    sizeof_RString + sizeof_stringext /\
  (sizeof_RString + sizeof_stringext <= size ->
   rb_mmtk_string_size_impl sizeof_RString sizeof_stringext size = size) /\
  (size < sizeof_RString + sizeof_stringext ->
   rb_mmtk_string_size_impl sizeof_RString sizeof_stringext size =
     sizeof_RString + sizeof_stringext) /\
  sizeof_RString + sizeof_stringext <=
    rb_mmtk_string_size_impl sizeof_RString sizeof_stringext size.
Proof.
  intros Ha Hb Hsum.
  assert (Hmin : rb_mmtk_str_heap_size sizeof_RString sizeof_stringext =
                 sizeof_RString + sizeof_stringext).
  { unfold rb_mmtk_str_heap_size, wrap64, SIZE_MAX_plus_1. apply Z.mod_small. lia. }
  unfold rb_mmtk_string_size_impl. rewrite Hmin.
  destruct (size <? sizeof_RString + sizeof_stringext) eqn:E; zbool;
    repeat split; intros; lia.
Qed.

(** A 40-byte [struct RString] with an 8-byte extension, asked for 24 and
    for 64 bytes. *)
Lemma string_size_clamps_to_minimum_witness :
  rb_mmtk_string_size_impl 40 8 24 = 48 /\ rb_mmtk_string_size_impl 40 8 64 = 64.
Proof.
  split.
  - apply (string_size_clamps_to_minimum 40 8 24); lia.
  - apply (string_size_clamps_to_minimum 40 8 64); lia.
Defined.

End MmtkProperties.

(** ** yjit.c: page protection and compilation *)

Section YjitGateProperties.

Import Yjit.

(** C4. Marking a region of size zero executable returns normally and
    leaves the record of operating-system calls as it was, for every block
    address and every kernel. *)
Theorem mark_executable_zero_size_is_noop
    (mprotect_ret : list os_call -> Z -> Z -> Z -> Z) (mem_block : Z) (tr : list os_call) :
  rb_yjit_mark_executable mprotect_ret mem_block 0 tr = (Returned tt, tr).
Proof. reflexivity. Qed.

(** C5. [rb_yjit_mark_writable] makes one [mprotect] call and returns false
    when it fails and true when it succeeds; [rb_yjit_mark_executable] on a
    region that is not empty makes one [mprotect] call and ends in
    [rb_bug] when it fails, returning nothing to the caller. *)
Theorem protection_failure_reported_or_fatal
    (mprotect_ret : list os_call -> Z -> Z -> Z -> Z) (mem_block mem_size : Z)
    (tr : list os_call) :
  (mprotect_ret tr mem_block mem_size (Z.lor PROT_READ PROT_WRITE) <> 0 ->
   rb_yjit_mark_writable mprotect_ret mem_block mem_size tr =
     (false, tr ++ [Mprotect mem_block mem_size (Z.lor PROT_READ PROT_WRITE)])) /\
  (mprotect_ret tr mem_block mem_size (Z.lor PROT_READ PROT_WRITE) = 0 ->
   rb_yjit_mark_writable mprotect_ret mem_block mem_size tr =
     (true, tr ++ [Mprotect mem_block mem_size (Z.lor PROT_READ PROT_WRITE)])) /\
  (mem_size <> 0 ->
   mprotect_ret tr mem_block mem_size (Z.lor PROT_READ PROT_EXEC) <> 0 ->
   rb_yjit_mark_executable mprotect_ret mem_block mem_size tr =
     (Aborted, tr ++ [Mprotect mem_block mem_size (Z.lor PROT_READ PROT_EXEC)])) /\
  (mem_size <> 0 ->
   mprotect_ret tr mem_block mem_size (Z.lor PROT_READ PROT_EXEC) = 0 ->
   rb_yjit_mark_executable mprotect_ret mem_block mem_size tr =
     (Returned tt, tr ++ [Mprotect mem_block mem_size (Z.lor PROT_READ PROT_EXEC)])).
Proof.
  unfold rb_yjit_mark_writable, rb_yjit_mark_executable, mprotect.
  repeat split.
  - intros Hr. apply Z.eqb_neq in Hr. rewrite Hr. reflexivity.
  - intros Hr. rewrite Hr. reflexivity.
  - intros Hs Hr. apply Z.eqb_neq in Hs, Hr. rewrite Hs, Hr. reflexivity.
  - intros Hs Hr. apply Z.eqb_neq in Hs. rewrite Hs, Hr. reflexivity.
Qed.

(** The kernel refuses the page at 8192 and accepts the page at 4096. *)
Lemma protection_failure_reported_or_fatal_witness :
  rb_yjit_mark_writable sample_kernel 8192 4096 [] =
    (false, [Mprotect 8192 4096 3]) /\
  rb_yjit_mark_writable sample_kernel 4096 4096 [] =
    (true, [Mprotect 4096 4096 3]) /\
  rb_yjit_mark_executable sample_kernel 8192 4096 [] =
    (Aborted, [Mprotect 8192 4096 5]) /\
  rb_yjit_mark_executable sample_kernel 4096 4096 [] =
    (Returned tt, [Mprotect 4096 4096 5]).
Proof.
  split; [|split; [|split]].
  - apply (protection_failure_reported_or_fatal sample_kernel 8192 4096 []).
    vm_compute. discriminate.
  - apply (protection_failure_reported_or_fatal sample_kernel 4096 4096 []).
    vm_compute. reflexivity.
  - apply (protection_failure_reported_or_fatal sample_kernel 8192 4096 []).
    + lia.
    + vm_compute. discriminate.
  - apply (protection_failure_reported_or_fatal sample_kernel 4096 4096 []).
    + lia.
    + vm_compute. reflexivity.
Defined.

(** C2. With a generator that returns with the VM lock at the level it was
    called with, [rb_yjit_compile_iseq] calls the generator inside the
    gate; a non-null code pointer becomes the [jit_func] of the iseq and
    the result is true; a null one sets [jit_func] to null and the result
    is false; either way the lock is back at its level of entry on
    return. *)
Theorem compile_installs_entry_and_releases_gate
    (gen : Z -> Z -> vm -> Z * vm) (iseq ec : Z) (w : vm) :
  (forall i e w0, vm_lock_rec (gen i e w0).2 = vm_lock_rec w0) ->
  let w_in := rb_vm_barrier (rb_vm_lock_enter w).2 in
  let code_ptr := (gen iseq ec w_in).1 in
  let result := rb_yjit_compile_iseq gen iseq ec w in
  vm_lock_rec w_in = vm_lock_rec w + 1 /\
  (code_ptr <> 0 -> result.1 = true /\ jit_func result.2 !! iseq = Some code_ptr) /\
  (code_ptr = 0 -> result.1 = false /\ jit_func result.2 !! iseq = Some 0) /\
  vm_lock_rec result.2 = vm_lock_rec w.
Proof.
  intros Hgen w_in code_ptr result. subst w_in code_ptr result.
  split; [reflexivity|].
  unfold rb_yjit_compile_iseq. cbn [rb_vm_lock_enter snd fst].
  specialize (Hgen iseq ec
    (rb_vm_barrier (mkVm (vm_lock_rec w + 1) (vm_barriers w) (jit_func w)))).
  destruct (gen iseq ec
    (rb_vm_barrier (mkVm (vm_lock_rec w + 1) (vm_barriers w) (jit_func w))))
    as [code_ptr w3] eqn:Egen.
  cbn [fst snd] in *.
  destruct (code_ptr =? 0) eqn:E; zbool; cbn [negb fst snd rb_vm_lock_leave set_jit_func
    vm_lock_rec jit_func]; cbn [rb_vm_barrier vm_lock_rec] in Hgen.
  - subst code_ptr. split; [intros; contradiction|]. split; [|lia].
    intros _. split; [reflexivity | apply lookup_insert_eq].
  - split; [|split; [intros; contradiction | lia]].
    intros _. split; [reflexivity | apply lookup_insert_eq].
Qed.

(** The iseq at 64 is compiled, the iseq at 65 is not; both calls start
    with the lock free. *)
Lemma compile_installs_entry_and_releases_gate_witness :
  (rb_yjit_compile_iseq sample_generator 64 0 (mkVm 0 0 ∅)).1 = true /\
  jit_func (rb_yjit_compile_iseq sample_generator 64 0 (mkVm 0 0 ∅)).2 !! 64 = Some 4160 /\
  (rb_yjit_compile_iseq sample_generator 65 0 (mkVm 0 0 (<[65 := 7]> ∅))).1 = false /\
  jit_func (rb_yjit_compile_iseq sample_generator 65 0 (mkVm 0 0 (<[65 := 7]> ∅))).2 !! 65
    = Some 0 /\
  vm_lock_rec (rb_yjit_compile_iseq sample_generator 64 0 (mkVm 0 0 ∅)).2 = 0.
Proof.
  destruct (compile_installs_entry_and_releases_gate sample_generator 64 0 (mkVm 0 0 ∅))
    as (_ & Hok1 & _ & Hrel1); [reflexivity|].
  destruct (compile_installs_entry_and_releases_gate sample_generator 65 0
              (mkVm 0 0 (<[65 := 7]> ∅)))
    as (_ & _ & Hfail2 & _); [reflexivity|].
  destruct (Hok1 ltac:(vm_compute; discriminate)) as [H1 H2].
  destruct (Hfail2 ltac:(vm_compute; reflexivity)) as [H3 H4].
  repeat split; assumption.
Defined.

End YjitGateProperties.

(** ** yjit.c: heap walk *)

Lemma poison_restore_member (v : Z) (P : gset Z) : v ∈ P -> P ∖ {[v]} ∪ {[v]} = P.
Proof.
  intros Hv. apply set_eq. intros x.
  rewrite elem_of_union, elem_of_difference, elem_of_singleton. split.
  - intros [[Hx _] | ->]; assumption.
  - intros Hx. destruct (decide (x = v)); [right | left]; auto.
Qed.

Lemma poison_restore_absent (v : Z) (P : gset Z) : v ∉ P -> P ∖ {[v]} = P.
Proof.
  intros Hv. apply set_eq. intros x.
  rewrite elem_of_difference, elem_of_singleton. split.
  - intros [Hx _]. exact Hx.
  - intros Hx. split; [exact Hx|]. intros ->. contradiction.
Qed.

Lemma walk_objects_cons (vstart stride : Z) (n : nat) :
  Yjit.walk_objects vstart stride (S n) =
    vstart :: Yjit.walk_objects (vstart + stride) stride n.
Proof.
  unfold Yjit.walk_objects. cbn [seq map].
  rewrite <- seq_shift, map_map. f_equal; [lia|].
  apply map_ext. intros i. lia.
Qed.

Lemma walk_objects_lower_bound (n : nat) :
  forall (vstart stride v : Z),
    0 <= stride -> v ∈ Yjit.walk_objects vstart stride n -> vstart <= v.
Proof.
  induction n as [|n IH]; intros vstart stride v Hs Hin.
  - inversion Hin.
  - rewrite walk_objects_cons in Hin. apply elem_of_cons in Hin as [-> | Hin]; [lia|].
    apply IH in Hin; lia.
Qed.

(** With a positive stride no object is visited twice. *)
Lemma walk_objects_NoDup (n : nat) :
  forall (vstart stride : Z), 0 < stride -> NoDup (Yjit.walk_objects vstart stride n).
Proof.
  induction n as [|n IH]; intros vstart stride Hs.
  - constructor.
  - rewrite walk_objects_cons. apply NoDup_cons. split; [|apply IH; exact Hs].
    intros Hin. apply walk_objects_lower_bound in Hin; lia.
Qed.

Section HeapWalkProperties.

Import Yjit.

Context {U : Type}.
Variable rb_obj_is_iseq : Z -> bool.
Variable callback : Z -> walk_state U -> walk_state U.

(** The callback does not poison or unpoison. *)
Hypothesis callback_keeps_poison :
  forall v w, asan_poisoned (callback v w) = asan_poisoned w.

(** One visit: the callback runs on the object exactly when it is an iseq,
    and the poisoned set is restored. *)
Lemma for_each_iseq_visit_spec (v : Z) (w : walk_state U) :
  (for_each_iseq_visit rb_obj_is_iseq callback v w).1 =
    (if rb_obj_is_iseq v then [v] else []) /\
  asan_poisoned (for_each_iseq_visit rb_obj_is_iseq callback v w).2 = asan_poisoned w.
Proof.
  unfold for_each_iseq_visit, asan_poisoned_object_p, asan_poison_object_if,
    asan_unpoison_object.
  destruct (rb_obj_is_iseq v); cbn [fst snd]; (split; [reflexivity|]);
    case_bool_decide as Hv; cbn [asan_poisoned]; rewrite ?callback_keeps_poison;
    cbn [asan_poisoned];
    solve [apply poison_restore_member, Hv | apply poison_restore_absent, Hv].
Qed.

(** Without a wrap-around, [n] more objects lie between [vstart] and
    [vend]: the loop visits them in order and stops. *)
Lemma for_each_iseq_loop_spec (n : nat) :
  forall (fuel : nat) (vstart stride : Z) (w : walk_state U),
    (n <= fuel)%nat -> 0 <= vstart -> 0 < stride ->
    vstart + Z.of_nat n * stride < 2 ^ 64 ->
    exists w',
      for_each_iseq_loop rb_obj_is_iseq callback fuel vstart
        (vstart + Z.of_nat n * stride) stride w =
        Some (filter (fun v => rb_obj_is_iseq v = true) (walk_objects vstart stride n), w') /\
      asan_poisoned w' = asan_poisoned w.
Proof.
  induction n as [|n IH]; intros fuel vstart stride w Hfuel Hv Hs Hend.
  - exists w. split; [|reflexivity].
    replace (vstart + Z.of_nat 0 * stride) with vstart by lia.
    destruct fuel; simpl; rewrite Z.eqb_refl; reflexivity.
  - destruct fuel as [|fuel]; [lia|].
    cbn [for_each_iseq_loop].
    replace (vstart =? vstart + Z.of_nat (S n) * stride) with false
      by (symmetry; apply Z.eqb_neq; nia).
    destruct (for_each_iseq_visit_spec vstart w) as [Hcalled Hpoison].
    destruct (for_each_iseq_visit rb_obj_is_iseq callback vstart w) as [called w1].
    cbn [fst snd] in Hcalled, Hpoison.
    assert (Hwrap : wrap64 (vstart + stride) = vstart + stride).
    { unfold wrap64, SIZE_MAX_plus_1. apply Z.mod_small. nia. }
    rewrite Hwrap.
    destruct (IH fuel (vstart + stride) stride w1 ltac:(lia) ltac:(lia) Hs ltac:(nia))
      as (w' & Hloop & Hp).
    replace (vstart + Z.of_nat (S n) * stride)
      with (vstart + stride + Z.of_nat n * stride) by lia.
    rewrite Hloop. exists w'. split; [|congruence].
    f_equal. f_equal. subst called.
    rewrite walk_objects_cons, filter_cons. destruct (rb_obj_is_iseq vstart) eqn:E.
    + rewrite decide_True by reflexivity. reflexivity.
    + rewrite decide_False by discriminate. reflexivity.
Qed.

(** One visit, in full: the data are what one application of the callback
    to the unpoisoned object leaves when the object is an iseq, and are
    untouched otherwise. *)
Lemma for_each_iseq_visit_exact (v : Z) (w : walk_state U) :
  for_each_iseq_visit rb_obj_is_iseq callback v w =
    if rb_obj_is_iseq v
    then ([v], mkWalk (asan_poisoned w)
                 (cb_data (callback v (mkWalk (asan_poisoned w ∖ {[v]}) (cb_data w)))))
    else ([], mkWalk (asan_poisoned w) (cb_data w)).
Proof.
  unfold for_each_iseq_visit, asan_poisoned_object_p, asan_poison_object_if,
    asan_unpoison_object.
  destruct (rb_obj_is_iseq v); f_equal.
  - pose proof (callback_keeps_poison v (mkWalk (asan_poisoned w ∖ {[v]}) (cb_data w)))
      as Hkeep.
    destruct (callback v (mkWalk (asan_poisoned w ∖ {[v]}) (cb_data w))) as [p d].
    cbn [asan_poisoned cb_data] in *. subst p.
    case_bool_decide as Hv; f_equal;
      [apply poison_restore_member, Hv | apply poison_restore_absent, Hv].
  - case_bool_decide as Hv; cbn [asan_poisoned cb_data]; f_equal;
      [apply poison_restore_member, Hv | apply poison_restore_absent, Hv].
Qed.

(** The whole loop: the data at the end are what the applications of the
    callback to the visited iseqs, in the order of the walk, leave. *)
Lemma for_each_iseq_loop_data (n : nat) :
  forall (fuel : nat) (vstart stride : Z) (w : walk_state U),
    (n <= fuel)%nat -> 0 <= vstart -> 0 < stride ->
    vstart + Z.of_nat n * stride < 2 ^ 64 ->
    for_each_iseq_loop rb_obj_is_iseq callback fuel vstart
      (vstart + Z.of_nat n * stride) stride w =
      Some (filter (fun v => rb_obj_is_iseq v = true) (walk_objects vstart stride n),
            mkWalk (asan_poisoned w)
              (run_callbacks callback (asan_poisoned w)
                 (filter (fun v => rb_obj_is_iseq v = true) (walk_objects vstart stride n))
                 (cb_data w))).
Proof.
  induction n as [|n IH]; intros fuel vstart stride w Hfuel Hv Hs Hend.
  - replace (vstart + Z.of_nat 0 * stride) with vstart by lia.
    destruct w as [p d]. destruct fuel; simpl; rewrite Z.eqb_refl; reflexivity.
  - destruct fuel as [|fuel]; [lia|].
    cbn [for_each_iseq_loop].
    replace (vstart =? vstart + Z.of_nat (S n) * stride) with false
      by (symmetry; apply Z.eqb_neq; nia).
    rewrite for_each_iseq_visit_exact.
    assert (Hwrap : wrap64 (vstart + stride) = vstart + stride).
    { unfold wrap64, SIZE_MAX_plus_1. apply Z.mod_small. nia. }
    replace (vstart + Z.of_nat (S n) * stride)
      with (vstart + stride + Z.of_nat n * stride) by lia.
    rewrite walk_objects_cons, filter_cons.
    destruct (rb_obj_is_iseq vstart) eqn:E.
    + rewrite decide_True by reflexivity. rewrite Hwrap.
      rewrite (IH fuel (vstart + stride) stride _ ltac:(lia) ltac:(lia) Hs ltac:(nia)).
      reflexivity.
    + rewrite decide_False by discriminate. rewrite Hwrap.
      rewrite (IH fuel (vstart + stride) stride _ ltac:(lia) ltac:(lia) Hs ltac:(nia)).
      reflexivity.
Qed.

(** C6. In a walk over the [n] objects from [vstart] to [vend] (positive
    stride, no wrap-around) with a callback that leaves the poisoning
    alone, [for_each_iseq_i] returns 0; every single visit leaves the set
    of poisoned objects as it found it, and so does the whole walk; no
    object is visited twice; and the callback is invoked once for each
    visited object that is an iseq and for nothing else: a visit applies
    the callback to its object, unpoisoned, when the object is an iseq and
    leaves the callback's data untouched when it is not, and the data at
    the end of the walk are those that one application of the callback to
    each visited iseq, in the order of the walk, leaves behind. *)
Theorem heap_walk_restores_poison_and_calls_iseqs_once
    (n fuel : nat) (vstart stride : Z) (w : walk_state U) :
  (n <= fuel)%nat -> 0 <= vstart -> 0 < stride ->
  vstart + Z.of_nat n * stride < 2 ^ 64 ->
  (forall v w0,
     asan_poisoned (for_each_iseq_visit rb_obj_is_iseq callback v w0).2 =
       asan_poisoned w0) /\
  (forall v w0,
     cb_data (for_each_iseq_visit rb_obj_is_iseq callback v w0).2 =
       if rb_obj_is_iseq v
       then cb_data (callback v (asan_unpoison_object v w0))
       else cb_data w0) /\
  exists calls w',
    for_each_iseq_i rb_obj_is_iseq callback fuel vstart
      (vstart + Z.of_nat n * stride) stride w = Some (0, calls, w') /\
    asan_poisoned w' = asan_poisoned w /\
    NoDup (walk_objects vstart stride n) /\
    NoDup calls /\
    (forall v, v ∈ calls <-> v ∈ walk_objects vstart stride n /\ rb_obj_is_iseq v = true) /\
    calls = filter (fun v => rb_obj_is_iseq v = true) (walk_objects vstart stride n) /\
    cb_data w' = run_callbacks callback (asan_poisoned w) calls (cb_data w).
Proof.
  intros Hfuel Hv Hs Hend.
  split; [intros v w0; apply for_each_iseq_visit_spec|].
  split.
  { intros v w0. rewrite for_each_iseq_visit_exact. unfold asan_unpoison_object.
    destruct (rb_obj_is_iseq v); reflexivity. }
  eexists _, _. unfold for_each_iseq_i.
  rewrite (for_each_iseq_loop_data n fuel vstart stride w Hfuel Hv Hs Hend).
  split; [reflexivity|]. split; [reflexivity|].
  split; [apply walk_objects_NoDup; exact Hs|].
  split; [apply NoDup_filter, walk_objects_NoDup; exact Hs|].
  split; [intros v; rewrite list_elem_of_filter; tauto|].
  split; reflexivity.
Qed.

End HeapWalkProperties.

(** Five objects of 40 bytes from address 1000, two of them poisoned, the
    iseqs being the objects at multiples of 80. *)
Lemma heap_walk_restores_poison_and_calls_iseqs_once_witness :
  exists calls w',
    Yjit.for_each_iseq_i (fun v => v mod 80 =? 0) Yjit.sample_callback 10 1000
      (1000 + Z.of_nat 5 * 40) 40 (Yjit.mkWalk {[1040; 1080]} []) = Some (0, calls, w') /\
    Yjit.asan_poisoned w' = {[1040; 1080]} /\
    NoDup (Yjit.walk_objects 1000 40 5) /\
    NoDup calls /\
    (forall v, v ∈ calls <->
               v ∈ Yjit.walk_objects 1000 40 5 /\ (v mod 80 =? 0) = true) /\
    calls = [1040; 1120] /\
    Yjit.cb_data w' = [1120; 1040].
Proof.
  destruct (heap_walk_restores_poison_and_calls_iseqs_once
              (fun v => v mod 80 =? 0) Yjit.sample_callback (fun v w => eq_refl)
              5 10 1000 40 (Yjit.mkWalk {[1040; 1080]} []))
    as (_ & _ & calls & w' & Hrun & Hpoison & Hobjs & Hcalls & Hiff & Hlist & Hdata);
    [lia | lia | lia | lia |].
  exists calls, w'.
  split; [exact Hrun|]. split; [exact Hpoison|]. split; [exact Hobjs|].
  split; [exact Hcalls|]. split; [exact Hiff|].
  split; [rewrite Hlist; reflexivity | rewrite Hdata, Hlist; reflexivity].
Defined.

(** ** yjit.c: leaf builtin detection *)

Section LeafBuiltinProperties.

Import Yjit.

Variable T : insn_table.

Lemma wrap32_small (z : Z) : 0 <= z < 2 ^ 32 -> wrap32 z = z.
Proof. intros Hz. unfold wrap32. apply Z.mod_small. exact Hz. Qed.

(** C7, as the code has it.  For an iseq whose encoded sequence has the
    recorded size, the detection returns true exactly when the iseq has
    the leaf shape (the size is the sum of the two instruction lengths, the
    first instruction is [opt_invokebuiltin_delegate_leave], the one right
    after it is [leave]) and its [builtin_inline_p] flag is set;
    [rb_leaf_builtin_function] then returns the first operand, and null
    when the detection returns false. *)
Theorem leaf_builtin_detection_needs_shape_and_inline_flag (body : rb_iseq_constant_body) :
  0 < insn_len T (BIN_opt_invokebuiltin_delegate_leave T) ->
  0 < insn_len T (BIN_leave T) ->
  insn_len T (BIN_opt_invokebuiltin_delegate_leave T) + insn_len T (BIN_leave T) < 2 ^ 32 ->
  Z.of_nat (length (iseq_encoded body)) = iseq_size body ->
  exists b,
    rb_leaf_invokebuiltin_iseq_p T body = Some b /\
    (b = true <-> leaf_builtin_shape T body /\ builtin_inline_p body = true) /\
    (b = true ->
     exists bf, iseq_encoded body !! 1%nat = Some bf /\
                rb_leaf_builtin_function T body = Some bf) /\
    (b = false -> rb_leaf_builtin_function T body = Some 0).
Proof.
  intros Hl1 Hl2 Hsum Hsize.
  unfold rb_leaf_builtin_function, rb_leaf_invokebuiltin_iseq_p, leaf_builtin_shape.
  cbv zeta.
  rewrite (wrap32_small (insn_len T (BIN_opt_invokebuiltin_delegate_leave T))) by lia.
  rewrite (wrap32_small (insn_len T (BIN_leave T))) by lia.
  rewrite wrap32_small by lia.
  set (len1 := insn_len T (BIN_opt_invokebuiltin_delegate_leave T)) in *.
  set (len2 := insn_len T (BIN_leave T)) in *.
  destruct (iseq_size body =? len1 + len2) eqn:Esz; cbn [negb]; zbool.
  2:{ exists false. split; [reflexivity|]. split; [|split; [discriminate | reflexivity]].
      split; [discriminate|]. intros [[Hs _] _]. contradiction. }
  destruct (lookup_lt_is_Some_2 (iseq_encoded body) 0%nat ltac:(lia)) as [e0 He0].
  destruct (lookup_lt_is_Some_2 (iseq_encoded body) 1%nat ltac:(lia)) as [bf Hbf].
  destruct (lookup_lt_is_Some_2 (iseq_encoded body) (Z.to_nat len1) ltac:(lia))
    as [e1 He1].
  rewrite He0, He1.
  destruct (rb_vm_insn_addr2opcode T e0 =? BIN_opt_invokebuiltin_delegate_leave T) eqn:E0;
    cbn [negb]; zbool.
  2:{ exists false. split; [reflexivity|]. split; [|split; [discriminate | reflexivity]].
      split; [discriminate|]. intros [(_ & (x & Hx & Hop) & _) _]. congruence. }
  destruct (rb_vm_insn_addr2opcode T e1 =? BIN_leave T) eqn:E1; cbn [negb]; zbool.
  2:{ exists false. split; [reflexivity|]. split; [|split; [discriminate | reflexivity]].
      split; [discriminate|]. intros [(_ & _ & (x & Hx & Hop)) _]. congruence. }
  exists (builtin_inline_p body). split; [reflexivity|].
  destruct (builtin_inline_p body).
  - split; [|split; [eauto | discriminate]].
    split; [|reflexivity]. intros _. split; [|reflexivity]. eauto 10.
  - split; [|split; [discriminate | reflexivity]].
    split; [discriminate|]. intros [_ Hf]. discriminate.
Qed.

End LeafBuiltinProperties.

(** An iseq of four words: the dispatch with its two operands, then the
    return, and the flag set. *)
Lemma leaf_builtin_detection_needs_shape_and_inline_flag_witness :
  exists b,
    Yjit.rb_leaf_invokebuiltin_iseq_p Yjit.sample_insns
      (Yjit.mkBody 4 [100; 777; 0; 60] true) = Some b /\
    (b = true <->
     Yjit.leaf_builtin_shape Yjit.sample_insns (Yjit.mkBody 4 [100; 777; 0; 60] true) /\
     true = true) /\
    (b = true ->
     exists bf, [100; 777; 0; 60] !! 1%nat = Some bf /\
                Yjit.rb_leaf_builtin_function Yjit.sample_insns
                  (Yjit.mkBody 4 [100; 777; 0; 60] true) = Some bf) /\
    (b = false ->
     Yjit.rb_leaf_builtin_function Yjit.sample_insns
       (Yjit.mkBody 4 [100; 777; 0; 60] true) = Some 0).
Proof.
  apply (leaf_builtin_detection_needs_shape_and_inline_flag Yjit.sample_insns
           (Yjit.mkBody 4 [100; 777; 0; 60] true)).
  - vm_compute. reflexivity.
  - vm_compute. reflexivity.
  - vm_compute. reflexivity.
  - vm_compute. reflexivity.
Defined.

(** C7 as stated fails: [sample_body] has the leaf shape, and the
    detection does not return true for it, because its [builtin_inline_p]
    flag is not set. *)
Lemma leaf_shape_alone_is_not_detected :
  ~ (Yjit.rb_leaf_invokebuiltin_iseq_p Yjit.sample_insns Yjit.sample_body = Some true <->
     Yjit.leaf_builtin_shape Yjit.sample_insns Yjit.sample_body).
Proof.
  intros [_ Hshape].
  assert (Hfalse : Yjit.rb_leaf_invokebuiltin_iseq_p Yjit.sample_insns Yjit.sample_body =
                   Some false) by (vm_compute; reflexivity).
  rewrite Hfalse in Hshape.
  assert (Some false = Some true) as [=].
  apply Hshape. unfold Yjit.leaf_builtin_shape. cbn.
  split; [reflexivity|]. split; eexists; split; reflexivity.
Qed.

(** ** yjit.c: profiling export *)

Section ExportProperties.

Import Yjit.

Variable P : profile_frames.

(** Case analysis on a bind that returned. *)
Ltac bind_inv H :=
  unfold mbind, res_bind in H;
  repeat match type of H with
  | match ?m with Done _ => _ | Fault _ => _ end = Done _ =>
      let E := fresh "E" in destruct m eqn:E; [|discriminate H]
  end.

(** *** For every input: the two arrays grow together, [idx] moves
    forward, and the fuel of the model is enough *)

Lemma push_pair_inv (yraw ylines : list Z) (st st' : export_state) :
  push_pair yraw ylines st = Done st' ->
  idx st' = idx st + 1 /\
  length (raw_samples st') = S (length (raw_samples st)) /\
  length (line_samples st') = S (length (line_samples st)) /\
  frames st' = frames st.
Proof.
  unfold push_pair. intros H. bind_inv H. injection H as <-.
  cbn [idx raw_samples line_samples frames]. unfold rb_ary_push.
  rewrite !length_app. cbn [length]. repeat split; lia.
Qed.

Lemma add_frames_loop_inv (yraw ylines : list Z) (turns : nat) :
  forall st st',
    add_frames_loop P turns yraw ylines st = Done st' ->
    idx st' = idx st + Z.of_nat turns /\
    length (raw_samples st') = (length (raw_samples st) + turns)%nat /\
    length (line_samples st') = (length (line_samples st) + turns)%nat.
Proof.
  induction turns as [|turns IH]; intros st st' H.
  - injection H as <-. repeat split; lia.
  - cbn [add_frames_loop] in H. bind_inv H. apply IH in H.
    cbn [idx raw_samples line_samples] in H. unfold rb_ary_push in H.
    rewrite !length_app in H. cbn [length] in H. repeat split; lia.
Qed.

Lemma export_sample_inv (yraw ylines : list Z) (st st' : export_state) :
  export_sample P yraw ylines st = Done st' ->
  idx st + 3 <= idx st' /\
  (length (raw_samples st) = length (line_samples st) ->
   length (raw_samples st') = length (line_samples st')).
Proof.
  unfold export_sample. intros H. bind_inv H.
  apply add_frames_loop_inv in E1. apply push_pair_inv in E2. apply push_pair_inv in H.
  cbn [idx raw_samples line_samples] in E1. unfold rb_ary_push in E1.
  rewrite !length_app in E1. cbn [length] in E1. split; lia.
Qed.

Lemma export_loop_lockstep (yraw ylines : list Z) (samples_len : Z) (fuel : nat) :
  forall st st',
    export_loop P fuel yraw ylines samples_len st = Done st' ->
    length (raw_samples st) = length (line_samples st) ->
    length (raw_samples st') = length (line_samples st').
Proof.
  induction fuel as [|fuel IH]; intros st st' H Hlen.
  - cbn [export_loop] in H. destruct (idx st <? samples_len); [discriminate|].
    injection H as <-. exact Hlen.
  - cbn [export_loop] in H. destruct (idx st <? samples_len).
    + bind_inv H. apply IH in H; [exact H|].
      apply export_sample_inv in E as [_ E]. auto.
    + injection H as <-. exact Hlen.
Qed.

(** A fault below the loop is a read outside the arrays. *)
Ltac bind_fault H :=
  unfold mbind, res_bind in H;
  repeat match type of H with
  | match ?m with Done _ => _ | Fault _ => _ end = Fault _ =>
      let E := fresh "E" in destruct m eqn:E; [|injection H as <-; eauto]
  end.

Lemma array_get_fault (a : list Z) (i : Z) (e : fault) :
  array_get a i = Fault e -> e = OutOfBounds.
Proof.
  unfold array_get, of_option.
  destruct ((0 <=? i) && (i <? INT_MAX)); [destruct (a !! Z.to_nat i)|]; congruence.
Qed.

Lemma push_pair_fault (yraw ylines : list Z) (st : export_state) (e : fault) :
  push_pair yraw ylines st = Fault e -> e = OutOfBounds.
Proof.
  unfold push_pair. intros H. pose proof array_get_fault as Hg.
  bind_fault H. discriminate.
Qed.

Lemma add_frames_loop_fault (yraw ylines : list Z) (turns : nat) :
  forall st e, add_frames_loop P turns yraw ylines st = Fault e -> e = OutOfBounds.
Proof.
  induction turns as [|turns IH]; intros st e H; [discriminate|].
  cbn [add_frames_loop] in H. pose proof array_get_fault as Hg.
  bind_fault H. eauto.
Qed.

Lemma export_sample_fault (yraw ylines : list Z) (st : export_state) (e : fault) :
  export_sample P yraw ylines st = Fault e -> e = OutOfBounds.
Proof.
  unfold export_sample. intros H.
  pose proof array_get_fault as Hg. pose proof push_pair_fault as Hp.
  pose proof add_frames_loop_fault as Ha.
  bind_fault H. eauto.
Qed.

Lemma export_loop_fuel_enough (yraw ylines : list Z) (samples_len : Z) (fuel : nat) :
  forall st,
    samples_len - idx st <= Z.of_nat fuel ->
    export_loop P fuel yraw ylines samples_len st <> Fault OutOfFuel.
Proof.
  induction fuel as [|fuel IH]; intros st Hfuel.
  - cbn [export_loop]. destruct (idx st <? samples_len) eqn:E; zbool; [lia | discriminate].
  - cbn [export_loop]. destruct (idx st <? samples_len) eqn:E; [|discriminate].
    unfold mbind, res_bind.
    destruct (export_sample P yraw ylines st) as [st1|e] eqn:E1.
    + apply IH. apply export_sample_inv in E1 as [E1 _]. lia.
    + apply export_sample_fault in E1 as ->. discriminate.
Qed.

(** Nothing in the loop allocates an array. *)
Lemma export_loop_no_argument_error (yraw ylines : list Z) (samples_len : Z) (fuel : nat) :
  forall st, export_loop P fuel yraw ylines samples_len st <> Fault ArgumentError.
Proof.
  induction fuel as [|fuel IH]; intros st.
  - cbn [export_loop]. destruct (idx st <? samples_len); discriminate.
  - cbn [export_loop]. destruct (idx st <? samples_len); [|discriminate].
    unfold mbind, res_bind.
    destruct (export_sample P yraw ylines st) as [st1|e] eqn:E1.
    + apply IH.
    + apply export_sample_fault in E1 as ->. discriminate.
Qed.

(** *** The frames hash *)


(** A frame identity that has a record keeps it. *)
Lemma add_frame_present (hash : gmap Z frame_info) (frame : Z) (fi : frame_info) :
  hash !! PTR2NUM frame = Some fi -> rb_yjit_add_frame P hash frame = hash.
Proof. intros H. unfold rb_yjit_add_frame. cbv zeta. rewrite H. reflexivity. Qed.

Lemma add_frame_absent (hash : gmap Z frame_info) (frame : Z) :
  hash !! PTR2NUM frame = None ->
  rb_yjit_add_frame P hash frame = <[PTR2NUM frame := new_frame_info P frame]> hash.
Proof. intros H. unfold rb_yjit_add_frame. cbv zeta. rewrite H. reflexivity. Qed.

Lemma add_frame_dom (hash : gmap Z frame_info) (frame : Z) :
  dom (rb_yjit_add_frame P hash frame) = dom hash ∪ {[PTR2NUM frame]}.
Proof.
  destruct (hash !! PTR2NUM frame) as [fi|] eqn:E.
  - rewrite (add_frame_present _ _ _ E). apply set_eq. intros x.
    rewrite elem_of_union, elem_of_singleton. split; [auto|].
    intros [Hx| ->]; [exact Hx|]. apply elem_of_dom. eauto.
  - rewrite (add_frame_absent _ _ E), dom_insert_L. apply set_eq. intros x.
    rewrite !elem_of_union. tauto.
Qed.

Lemma add_frames_dom (stack : list Z) :
  forall hash : gmap Z frame_info,
    dom (foldl (rb_yjit_add_frame P) hash stack) =
      dom hash ∪ list_to_set (PTR2NUM <$> stack).
Proof.
  induction stack as [|f stack IH]; intros hash.
  - cbn. apply set_eq. intros x. rewrite elem_of_union, elem_of_empty. tauto.
  - cbn [foldl fmap list_fmap list_to_set]. rewrite IH, add_frame_dom.
    apply set_eq. intros x. rewrite !elem_of_union. tauto.
Qed.



(** *** Arrays laid out by the recorder *)

Lemma array_get_middle (pre post : list Z) (x i : Z) :
  i = Z.of_nat (length pre) -> i < INT_MAX ->
  array_get (pre ++ x :: post) i = Done x.
Proof.
  intros -> Hi. unfold array_get.
  replace ((0 <=? Z.of_nat (length pre)) && (Z.of_nat (length pre) <? INT_MAX))
    with true by (zbool_true; lia).
  rewrite Nat2Z.id, list_lookup_middle by reflexivity. reflexivity.
Qed.

Lemma array_get_in_range (a : list Z) (i : Z) :
  0 <= i < Z.of_nat (length a) -> i < INT_MAX -> exists x, array_get a i = Done x.
Proof.
  intros Hi Hmax. unfold array_get.
  replace ((0 <=? i) && (i <? INT_MAX)) with true by (zbool_true; lia).
  destruct (lookup_lt_is_Some_2 a (Z.to_nat i) ltac:(lia)) as [x Hx].
  exists x. rewrite Hx. reflexivity.
Qed.

Lemma to_int_small (z : Z) : 0 <= z < 2 ^ 31 -> to_int z = z.
Proof. intros Hz. unfold to_int. rewrite Z.mod_small; lia. Qed.

Lemma push_pair_in_range (yraw ylines : list Z) (st : export_state) :
  0 <= idx st < Z.of_nat (length yraw) ->
  (length yraw <= length ylines)%nat ->
  Z.of_nat (length yraw) <= INT_MAX ->
  exists st', push_pair yraw ylines st = Done st'.
Proof.
  intros Hi Hl Hmax. unfold push_pair.
  destruct (array_get_in_range yraw (idx st)) as [r Hr]; [lia | lia |].
  destruct (array_get_in_range ylines (idx st)) as [l Hll]; [lia | lia |].
  rewrite Hr, Hll. cbn. eauto.
Qed.

Lemma add_frames_loop_encoded (stack : list Z) :
  forall (pre post yraw ylines : list Z) (st : export_state),
    yraw = pre ++ stack ++ post ->
    idx st = Z.of_nat (length pre) ->
    (length yraw <= length ylines)%nat ->
    Z.of_nat (length yraw) <= INT_MAX ->
    exists st',
      add_frames_loop P (length stack) yraw ylines st = Done st' /\
      frames st' = foldl (rb_yjit_add_frame P) (frames st) stack.
Proof.
  induction stack as [|f stack IH]; intros pre post yraw ylines st Hraw Hidx Hl Hmax.
  - exists st. split; reflexivity.
  - cbn [length add_frames_loop].
    assert (Hlen : length yraw = (length pre + S (length stack + length post))%nat)
      by (rewrite Hraw, !length_app; cbn [length]; lia).
    assert (Hget : array_get yraw (idx st) = Done f)
      by (rewrite Hraw; apply (array_get_middle pre (stack ++ post)); lia).
    rewrite Hget. cbn.
    destruct (array_get_in_range ylines (idx st)) as [l Hll]; [lia | lia |].
    rewrite Hll. cbn.
    destruct (IH (pre ++ [f]) post yraw ylines
                (mkExport (idx st + 1) (rb_ary_push (raw_samples st) (SIZET2NUM f))
                   (rb_ary_push (line_samples st) (INT2NUM l))
                   (rb_yjit_add_frame P (frames st) f)))
      as (st' & Hloop & Hframes).
    + rewrite Hraw, <- app_assoc. reflexivity.
    + cbn [idx]. rewrite length_app. cbn [length]. lia.
    + exact Hl.
    + exact Hmax.
    + exists st'. split; [exact Hloop|]. exact Hframes.
Qed.

Lemma encode_sample_length (s : stack_sample) :
  length (encode_sample s) = (length (sample_stack s) + 3)%nat.
Proof. unfold encode_sample. cbn [length]. rewrite length_app. cbn [length]. lia. Qed.

Lemma export_sample_encoded (s : stack_sample) (pre post yraw ylines : list Z)
    (st : export_state) :
  yraw = pre ++ encode_sample s ++ post ->
  idx st = Z.of_nat (length pre) ->
  (length yraw <= length ylines)%nat ->
  Z.of_nat (length yraw) <= INT_MAX ->
  exists st',
    export_sample P yraw ylines st = Done st' /\
    idx st' = idx st + Z.of_nat (length (encode_sample s)) /\
    frames st' = foldl (rb_yjit_add_frame P) (frames st) (sample_stack s).
Proof.
  intros Hraw Hidx Hl Hmax.
  assert (Hlen : length yraw =
                 (length pre + (length (sample_stack s) + 3) + length post)%nat)
    by (rewrite Hraw, !length_app, encode_sample_length; lia).
  unfold INT_MAX in Hmax.
  unfold export_sample.
  assert (Hget : array_get yraw (idx st) = Done (Z.of_nat (length (sample_stack s)))).
  { rewrite Hraw. unfold encode_sample.
    apply (array_get_middle pre ((sample_stack s ++ [sample_tail1 s; sample_tail2 s]) ++ post));
      unfold INT_MAX; lia. }
  rewrite Hget. cbn [mbind res_bind].
  destruct (array_get_in_range ylines (idx st)) as [l Hll]; [lia | unfold INT_MAX; lia |].
  rewrite Hll. cbn [mbind res_bind].
  rewrite to_int_small by lia. rewrite Nat2Z.id.
  destruct (add_frames_loop_encoded (sample_stack s)
              (pre ++ [Z.of_nat (length (sample_stack s))])
              ([sample_tail1 s; sample_tail2 s] ++ post) yraw ylines
              (mkExport (idx st + 1)
                 (rb_ary_push (raw_samples st)
                    (SIZET2NUM (Z.of_nat (length (sample_stack s)))))
                 (rb_ary_push (line_samples st) (INT2NUM (to_int l))) (frames st)))
    as (st1 & Hloop & Hframes1).
  { rewrite Hraw. unfold encode_sample. cbn [app]. rewrite <- !app_assoc. reflexivity. }
  { cbn [idx]. rewrite length_app. cbn [length]. lia. }
  { exact Hl. }
  { unfold INT_MAX. exact Hmax. }
  rewrite Hloop. cbn [mbind res_bind].
  pose proof (add_frames_loop_inv _ _ _ _ _ Hloop) as (Hidx1 & _ & _).
  cbn [idx frames] in Hidx1, Hframes1.
  destruct (push_pair_in_range yraw ylines st1) as [st2 Hp2];
    [lia | exact Hl | unfold INT_MAX; lia |].
  rewrite Hp2. cbn [mbind res_bind].
  pose proof (push_pair_inv _ _ _ _ Hp2) as (Hidx2 & _ & _ & Hframes2).
  destruct (push_pair_in_range yraw ylines st2) as [st3 Hp3];
    [lia | exact Hl | unfold INT_MAX; lia |].
  pose proof (push_pair_inv _ _ _ _ Hp3) as (Hidx3 & _ & _ & Hframes3).
  exists st3. split; [exact Hp3|]. rewrite encode_sample_length.
  split; [lia | congruence].
Qed.

Lemma export_loop_encoded (ss : list stack_sample) :
  forall (pre yraw ylines : list Z) (fuel : nat) (st : export_state),
    yraw = pre ++ encode_samples ss ->
    idx st = Z.of_nat (length pre) ->
    (length yraw <= length ylines)%nat ->
    Z.of_nat (length yraw) <= INT_MAX ->
    (length (encode_samples ss) <= fuel)%nat ->
    exists st',
      export_loop P fuel yraw ylines (Z.of_nat (length yraw)) st = Done st' /\
      frames st' = foldl (rb_yjit_add_frame P) (frames st) (observed_frames ss).
Proof.
  induction ss as [|s ss IH]; intros pre yraw ylines fuel st Hraw Hidx Hl Hmax Hfuel.
  - exists st. split; [|reflexivity].
    assert (Hend : (idx st <? Z.of_nat (length yraw)) = false)
      by (apply Z.ltb_ge; rewrite Hraw, length_app; cbn [encode_samples map concat length];
          lia).
    destruct fuel; cbn [export_loop]; rewrite Hend; reflexivity.
  - assert (Hcons : encode_samples (s :: ss) = encode_sample s ++ encode_samples ss)
      by reflexivity.
    rewrite Hcons in Hraw, Hfuel. rewrite length_app, encode_sample_length in Hfuel.
    destruct fuel as [|fuel]; [lia|].
    cbn [export_loop].
    assert (Hlt : (idx st <? Z.of_nat (length yraw)) = true)
      by (apply Z.ltb_lt; rewrite Hraw, !length_app, encode_sample_length; lia).
    rewrite Hlt.
    destruct (export_sample_encoded s pre (encode_samples ss) yraw ylines st
                Hraw Hidx Hl Hmax) as (st1 & Hs & Hidx1 & Hframes1).
    rewrite Hs. cbn [mbind res_bind].
    destruct (IH (pre ++ encode_sample s) yraw ylines fuel st1) as (st' & Hloop & Hframes').
    + rewrite Hraw, <- app_assoc. reflexivity.
    + rewrite Hidx1, Hidx, length_app. lia.
    + exact Hl.
    + exact Hmax.
    + lia.
    + exists st'. split; [exact Hloop|].
      rewrite Hframes', Hframes1. unfold observed_frames. cbn [map concat].
      rewrite foldl_app. reflexivity.
Qed.

(** With a sample count that is not negative both arrays are allocated
    and the export is the loop. *)
Lemma exit_locations_dict_nonneg (yraw ylines : list Z) (samples_len : Z) :
  0 <= samples_len ->
  rb_yjit_exit_locations_dict P yraw ylines samples_len =
    match export_loop P (Z.to_nat samples_len) yraw ylines samples_len
            (mkExport 0 [] [] ∅) with
    | Done st => Done (mkExit (raw_samples st) (line_samples st) (frames st))
    | Fault e => Fault e
    end.
Proof.
  intros Hlen. unfold rb_yjit_exit_locations_dict, rb_ary_new_capa.
  replace (samples_len <? 0) with false by (symmetry; apply Z.ltb_ge; exact Hlen).
  reflexivity.
Qed.

Lemma exit_locations_dict_negative (yraw ylines : list Z) (samples_len : Z) :
  samples_len < 0 ->
  rb_yjit_exit_locations_dict P yraw ylines samples_len = Fault ArgumentError.
Proof.
  intros Hlen. unfold rb_yjit_exit_locations_dict, rb_ary_new_capa.
  replace (samples_len <? 0) with true by (symmetry; apply Z.ltb_lt; exact Hlen).
  reflexivity.
Qed.

(** The export of a recorded sequence returns, with the frames hash built
    from the observed frames in order. *)
Lemma exit_locations_dict_encoded (ss : list stack_sample) (ylines : list Z) :
  (length (encode_samples ss) <= length ylines)%nat ->
  Z.of_nat (length (encode_samples ss)) <= INT_MAX ->
  exists r,
    rb_yjit_exit_locations_dict P (encode_samples ss) ylines
      (Z.of_nat (length (encode_samples ss))) = Done r /\
    res_frames r = foldl (rb_yjit_add_frame P) ∅ (observed_frames ss) /\
    length (res_raw r) = length (res_lines r).
Proof.
  intros Hl Hmax. rewrite exit_locations_dict_nonneg by lia.
  destruct (export_loop_encoded ss [] (encode_samples ss) ylines
              (Z.to_nat (Z.of_nat (length (encode_samples ss)))) (mkExport 0 [] [] ∅))
    as (st' & Hloop & Hframes); [reflexivity | reflexivity | exact Hl | exact Hmax | lia |].
  rewrite Hloop. eexists. split; [reflexivity|].
  cbn [res_frames res_raw res_lines]. split; [exact Hframes|].
  apply (export_loop_lockstep _ _ _ _ _ _ Hloop). reflexivity.
Qed.

(** The export fails in two ways only: a negative sample count is refused
    with ArgumentError before anything is read, and otherwise a failure is
    a read outside the input arrays. *)
Lemma exit_locations_dict_fault (yraw ylines : list Z) (samples_len : Z) (e : fault) :
  rb_yjit_exit_locations_dict P yraw ylines samples_len = Fault e ->
  (samples_len < 0 /\ e = ArgumentError) \/ (0 <= samples_len /\ e = OutOfBounds).
Proof.
  intros H. destruct (Z.lt_ge_cases samples_len 0) as [Hneg|Hpos].
  - left. rewrite exit_locations_dict_negative in H by exact Hneg.
    injection H as <-. split; [exact Hneg | reflexivity].
  - right. split; [exact Hpos|].
    rewrite exit_locations_dict_nonneg in H by exact Hpos.
    destruct (export_loop P (Z.to_nat samples_len) yraw ylines samples_len
                (mkExport 0 [] [] ∅)) as [st|e'] eqn:E; [discriminate|].
    injection H as <-. destruct e'; [reflexivity| |].
    + exfalso. revert E. apply export_loop_fuel_enough. cbn [idx]. lia.
    + exfalso. revert E. apply export_loop_no_argument_error.
Qed.

Lemma exit_locations_dict_done (yraw ylines : list Z) (samples_len : Z) r :
  rb_yjit_exit_locations_dict P yraw ylines samples_len = Done r ->
  0 <= samples_len /\
  exists st,
    export_loop P (Z.to_nat samples_len) yraw ylines samples_len (mkExport 0 [] [] ∅)
      = Done st /\
    r = mkExit (raw_samples st) (line_samples st) (frames st).
Proof.
  intros H. destruct (Z.lt_ge_cases samples_len 0) as [Hneg|Hpos].
  - rewrite exit_locations_dict_negative in H by exact Hneg. discriminate.
  - split; [exact Hpos|]. rewrite exit_locations_dict_nonneg in H by exact Hpos.
    destruct (export_loop P (Z.to_nat samples_len) yraw ylines samples_len
                (mkExport 0 [] [] ∅)) as [st|e'] eqn:E; [|discriminate].
    injection H as <-. exists st. split; reflexivity.
Qed.


(** C10. Whenever the export returns, the arrays under [:raw] and [:lines]
    have the same length. The only ways not to return are the ArgumentError
    of a negative sample count, raised before either array exists, and,
    with a count that is not negative, a read outside the input arrays; on
    a recorded sequence it returns. *)
Theorem exit_locations_raw_and_lines_in_lockstep
    (yraw ylines : list Z) (samples_len : Z) :
  match rb_yjit_exit_locations_dict P yraw ylines samples_len with
  | Done r => length (res_raw r) = length (res_lines r)
  | Fault e =>
      (samples_len < 0 /\ e = ArgumentError) \/ (0 <= samples_len /\ e = OutOfBounds)
  end /\
  (forall ss,
     yraw = encode_samples ss ->
     samples_len = Z.of_nat (length yraw) ->
     (length yraw <= length ylines)%nat ->
     Z.of_nat (length yraw) <= INT_MAX ->
     exists r,
       rb_yjit_exit_locations_dict P yraw ylines samples_len = Done r /\
       length (res_raw r) = length (res_lines r)).
Proof.
  split.
  - destruct (rb_yjit_exit_locations_dict P yraw ylines samples_len) as [r|e] eqn:E.
    + destruct (exit_locations_dict_done _ _ _ _ E) as (_ & st & Eloop & ->).
      cbn [res_raw res_lines].
      apply (export_loop_lockstep _ _ _ _ _ _ Eloop). reflexivity.
    + apply (exit_locations_dict_fault _ _ _ _ E).
  - intros ss -> -> Hl Hmax.
    destruct (exit_locations_dict_encoded ss ylines Hl Hmax) as (r & Hr & _ & Hlen).
    exists r. split; assumption.
Qed.

End ExportProperties.


Lemma exit_locations_raw_and_lines_in_lockstep_witness :
  exists r,
    Yjit.rb_yjit_exit_locations_dict Yjit.sample_profile
      (Yjit.encode_samples Yjit.sample_stacks) Yjit.sample_lines 14 = Yjit.Done r /\
    length (Yjit.res_raw r) = length (Yjit.res_lines r).
Proof.
  apply (exit_locations_raw_and_lines_in_lockstep Yjit.sample_profile
           (Yjit.encode_samples Yjit.sample_stacks) Yjit.sample_lines 14)
    with (ss := Yjit.sample_stacks).
  - reflexivity.
  - vm_compute. reflexivity.
  - vm_compute. lia.
  - vm_compute. discriminate.
Defined.

(** * Further properties *)

(** ** mmtk_gc_impl.c: what an attach leaves alone, empty buffers, and
    chains of reallocations *)

Section MmtkFurtherProperties.

Import Mmtk.

Variable alloc : allocator.
Hypothesis alloc_ok : allocator_ok alloc.

(** With a NULL source the first half is the allocation alone. *)
Lemma new_strbuf_copy_fill_null (capa copy_size : Z) (h : heap) :
  new_strbuf_copy_fill alloc capa NULL copy_size h = Some (alloc capa h).
Proof.
  unfold new_strbuf_copy_fill. destruct (alloc capa h) as [strbuf h1]. reflexivity.
Qed.

(** The heap after a reallocation, for an owner whose buffer holds
    [old_size] readable bytes. *)
Lemma sized_realloc_spec (h : heap) (str : Z) (r : RString) (new_size old_size : Z)
    (old_bytes : list byte) :
  strings h !! str = Some r ->
  0 <= new_size ->
  load_bytes h (as_heap_ptr r) old_size = Some old_bytes ->
  exists init,
    blocks h !! (alloc new_size h).1 = None /\
    length init = Z.to_nat new_size /\
    rb_mmtk_str_sized_realloc_n_impl alloc str new_size old_size h =
      Some (mkHeap
              (<[(alloc new_size h).1 :=
                   take (Z.to_nat (Z.min old_size new_size)) old_bytes ++
                   drop (Z.to_nat (Z.min old_size new_size)) init]> (blocks h))
              (<[str := mkRString (Ptr (alloc new_size h).1 0) new_size
                          (alloc new_size h).1]> (strings h))).
Proof.
  intros Hr Hnew Hload.
  destruct (load_bytes_length _ _ _ _ Hload) as [Hold Hlen].
  assert (Hcs : realloc_copy_size new_size old_size = Z.min old_size new_size).
  { unfold realloc_copy_size. destruct (old_size <? new_size) eqn:E; zbool; lia. }
  assert (Hload' : load_bytes h (as_heap_ptr r) (Z.min old_size new_size) =
                   Some (take (Z.to_nat (Z.min old_size new_size)) old_bytes))
    by (apply (load_bytes_prefix h _ old_size); [exact Hload | lia]).
  destruct (new_strbuf_copy_impl_spec alloc h str r new_size (ext_strbuf r) (as_heap_ptr r)
              (Z.min old_size new_size) _ alloc_ok Hr ltac:(lia) Hload')
    as (init & Hfresh & Hinit & Hilen & Himpl).
  exists init. split; [exact Hfresh|]. split; [exact Hilen|].
  unfold rb_mmtk_str_sized_realloc_n_impl. rewrite Hr. cbv zeta. rewrite Hcs, Himpl.
  unfold set_as_heap_aux_capa. cbn [strings blocks]. rewrite lookup_insert_eq.
  unfold set_strings. cbn [strings blocks as_heap_ptr ext_strbuf].
  rewrite insert_insert_eq. reflexivity.
Qed.

(** X1. An attach that returns adds exactly one block, the new buffer: it
    did not exist before, it has [capa] bytes and it starts with the
    [copy_size] source bytes.  It rewrites the owner's header, whose
    content pointer and buffer slot now name the new buffer while the
    recorded capacity is as before.  Every block that existed, the owner's
    previous buffer and the source among them, keeps its bytes, and every
    other string keeps its header. *)
Theorem attach_keeps_existing_blocks_and_other_strings
    (h : heap) (str : Z) (r : RString) (capa src_obj : Z) (src : pointer)
    (copy_size : Z) (data : list byte) :
  strings h !! str = Some r ->
  copy_size <= capa ->
  load_bytes h src copy_size = Some data ->
  exists h' strbuf content,
    rb_mmtk_str_new_strbuf_copy_impl alloc str capa src_obj src copy_size h = Some h' /\
    (forall b bs, blocks h !! b = Some bs -> blocks h' !! b = Some bs) /\
    (forall p n bs, load_bytes h p n = Some bs -> load_bytes h' p n = Some bs) /\
    (forall s, s <> str -> strings h' !! s = strings h !! s) /\
    blocks h !! strbuf = None /\
    blocks h' !! strbuf = Some content /\
    length content = Z.to_nat capa /\
    take (Z.to_nat copy_size) content = data /\
    dom (blocks h') = dom (blocks h) ∪ {[strbuf]} /\
    strings h' !! str = Some (mkRString (Ptr strbuf 0) (as_heap_aux_capa r) strbuf) /\
    dom (strings h') = dom (strings h).
Proof.
  intros Hr Hle Hload.
  destruct (load_bytes_length _ _ _ _ Hload) as [Hn Hlen].
  destruct (new_strbuf_copy_impl_spec alloc h str r capa src_obj src copy_size data
              alloc_ok Hr Hle Hload) as (init & Hfresh & _ & Hilen & Himpl).
  eexists _, (alloc capa h).1, (data ++ drop (Z.to_nat copy_size) init).
  split; [exact Himpl|]. cbn [blocks strings].
  assert (Hkeep : forall b bs, blocks h !! b = Some bs ->
            <[(alloc capa h).1 := data ++ drop (Z.to_nat copy_size) init]> (blocks h) !! b
            = Some bs).
  { intros b bs Hb. rewrite lookup_insert_ne; [exact Hb|]. intros <-. congruence. }
  split; [exact Hkeep|]. split.
  { intros p n bs Hp. destruct p as [|b off]; [discriminate|].
    destruct (load_bytes_block_exists _ _ _ _ _ Hp) as [bs0 Hb0].
    rewrite <- Hp. apply load_bytes_blocks. intros b1 off1 [= <- <-].
    cbn [blocks]. rewrite (Hkeep b bs0 Hb0). symmetry. exact Hb0. }
  split; [intros s Hs; apply lookup_insert_ne; congruence|].
  split; [exact Hfresh|].
  split; [apply lookup_insert_eq|].
  split; [rewrite length_app, length_drop; lia|].
  split; [rewrite <- Hlen; apply take_app_length|].
  split; [rewrite dom_insert_L; apply set_eq; intros x;
          rewrite !elem_of_union; tauto|].
  split; [apply lookup_insert_eq|].
  rewrite dom_insert_L. apply set_eq. intros x.
  rewrite elem_of_union, elem_of_singleton. split; [|auto].
  intros [-> | Hx]; [|exact Hx]. apply elem_of_dom. eauto.
Qed.

Lemma attach_null_spec (h : heap) (str : Z) (r : RString) (capa src_obj copy_size : Z) :
  strings h !! str = Some r ->
  0 <= capa ->
  exists init,
    blocks h !! (alloc capa h).1 = None /\
    length init = Z.to_nat capa /\
    rb_mmtk_str_new_strbuf_copy_impl alloc str capa src_obj NULL copy_size h =
      Some (mkHeap
              (<[(alloc capa h).1 := init]> (blocks h))
              (<[str := mkRString (Ptr (alloc capa h).1 0) (as_heap_aux_capa r)
                          (alloc capa h).1]> (strings h))).
Proof.
  intros Hr Hcapa.
  destruct (alloc_ok capa h Hcapa) as (init & Hfresh & Hlen & Hblocks & Hstrings).
  exists init. split; [exact Hfresh|]. split; [exact Hlen|].
  unfold rb_mmtk_str_new_strbuf_copy_impl. rewrite new_strbuf_copy_fill_null.
  destruct (alloc capa h) as [strbuf h1] eqn:Ealloc. cbn [fst snd] in *.
  rewrite <- Hstrings in Hr.
  destruct (new_strbuf_attach_spec str strbuf h1 r Hr) as (h' & Hatt & Hb & Hs).
  rewrite Hatt. f_equal. destruct h' as [bl st]. cbn [blocks strings] in *.
  subst bl st. rewrite Hblocks, Hstrings. reflexivity.
Qed.

(** X2. With a NULL source nothing is copied and [copy_size] is not looked
    at, however large: the owner gets the new buffer exactly as the
    allocator delivered it, and its recorded capacity is not written. *)
Theorem attach_with_null_source_copies_nothing
    (h : heap) (str : Z) (r : RString) (capa src_obj copy_size : Z) :
  strings h !! str = Some r ->
  0 <= capa ->
  exists init,
    blocks h !! (alloc capa h).1 = None /\
    blocks (alloc capa h).2 !! (alloc capa h).1 = Some init /\
    rb_mmtk_str_new_strbuf_copy_impl alloc str capa src_obj NULL copy_size h =
      Some (mkHeap
              (<[(alloc capa h).1 := init]> (blocks h))
              (<[str := mkRString (Ptr (alloc capa h).1 0) (as_heap_aux_capa r)
                          (alloc capa h).1]> (strings h))).
Proof.
  intros Hr Hcapa.
  destruct (attach_null_spec h str r capa src_obj copy_size Hr Hcapa)
    as (init & Hfresh & Hlen & Himpl).
  destruct (alloc_ok capa h Hcapa) as (init' & _ & _ & Hblocks & _).
  exists init'. split; [exact Hfresh|]. split; [rewrite Hblocks; apply lookup_insert_eq|].
  rewrite Himpl. f_equal. f_equal.
  assert (Hsame : blocks (alloc capa h).2 = <[(alloc capa h).1 := init]> (blocks h)).
  { unfold rb_mmtk_str_new_strbuf_copy_impl in Himpl.
    rewrite new_strbuf_copy_fill_null in Himpl.
    destruct (alloc capa h) as [strbuf h1]. cbn [fst snd] in *.
    unfold new_strbuf_attach, set_as_heap_ptr, rb_mmtk_str_set_strbuf in Himpl.
    destruct (strings h1 !! str); [|discriminate]. cbn [strings set_strings] in Himpl.
    rewrite lookup_insert_eq in Himpl. injection Himpl as Hb _. exact Hb. }
  rewrite Hblocks in Hsame.
  assert (Some init' = Some init) as [= ->]; [|reflexivity].
  rewrite <- (lookup_insert_eq (blocks h) (alloc capa h).1 init'), Hsame.
  apply lookup_insert_eq.
Qed.

Lemma size_of_chars_sum (len termlen : Z) :
  wrap64 (wrap64 (1 * wrap64 len) + wrap64 (1 * wrap64 termlen)) =
    (len + termlen) mod 2 ^ 64.
Proof.
  unfold wrap64, SIZE_MAX_plus_1. rewrite !Z.mul_1_l, !Z.mod_mod by lia.
  rewrite <- Zplus_mod. reflexivity.
Qed.

(** X3. [rb_mmtk_str_new_strbuf_impl] writes its one line to stderr and
    attaches an empty buffer whose size is [len + termlen] reduced modulo
    2^64, which is [len + termlen] itself when that fits [size_t]; the
    recorded capacity of the owner is not written. *)
Theorem new_strbuf_impl_logs_and_sizes_modulo
    (h : heap) (str : Z) (r : RString) (len termlen : Z) (stderr : list string) :
  strings h !! str = Some r ->
  exists strbuf init h',
    rb_mmtk_str_new_strbuf_impl alloc str len termlen stderr h =
      (stderr ++ [String.append "allocating string chunk" newline], Some h') /\
    blocks h !! strbuf = None /\
    blocks h' !! strbuf = Some init /\
    length init = Z.to_nat ((len + termlen) mod 2 ^ 64) /\
    (0 <= len + termlen < 2 ^ 64 -> length init = Z.to_nat (len + termlen)) /\
    strings h' !! str = Some (mkRString (Ptr strbuf 0) (as_heap_aux_capa r) strbuf).
Proof.
  intros Hr. unfold rb_mmtk_str_new_strbuf_impl, rb_mmtk_str_new_strbuf. cbv zeta.
  rewrite size_of_chars_sum.
  assert (Hcapa : 0 <= (len + termlen) mod 2 ^ 64) by (apply Z.mod_pos_bound; lia).
  destruct (attach_null_spec h str r ((len + termlen) mod 2 ^ 64) 0 0 Hr Hcapa)
    as (init & Hfresh & Hlen & Himpl).
  rewrite Himpl. eexists _, init, _. split; [reflexivity|]. cbn [blocks strings].
  split; [exact Hfresh|]. split; [apply lookup_insert_eq|]. split; [exact Hlen|].
  split; [|apply lookup_insert_eq].
  intros Hfit. rewrite Hlen, Z.mod_small by lia. reflexivity.
Qed.

(** X4. A reallocation that does not shrink keeps every byte: the new
    buffer has [new_size] bytes and starts with all [old_size] bytes of the
    old one, which can be read back through the owner's new pointer. *)
Theorem sized_realloc_grow_keeps_all_bytes
    (h : heap) (str : Z) (r : RString) (new_size old_size : Z) (old_bytes : list byte) :
  strings h !! str = Some r ->
  old_size <= new_size ->
  load_bytes h (as_heap_ptr r) old_size = Some old_bytes ->
  exists strbuf content h',
    rb_mmtk_str_sized_realloc_n_impl alloc str new_size old_size h = Some h' /\
    strings h' !! str = Some (mkRString (Ptr strbuf 0) new_size strbuf) /\
    blocks h' !! strbuf = Some content /\
    length content = Z.to_nat new_size /\
    take (Z.to_nat old_size) content = old_bytes /\
    load_bytes h' (Ptr strbuf 0) old_size = Some old_bytes.
Proof.
  intros Hr Hle Hload.
  destruct (load_bytes_length _ _ _ _ Hload) as [Hold Hlen].
  destruct (sized_realloc_spec h str r new_size old_size old_bytes Hr ltac:(lia) Hload)
    as (init & Hfresh & Hilen & Himpl).
  rewrite Himpl. rewrite Z.min_l by exact Hle.
  rewrite firstn_all2 by lia.
  eexists _, _, _. split; [reflexivity|]. cbn [blocks strings].
  split; [apply lookup_insert_eq|]. split; [apply lookup_insert_eq|].
  split; [rewrite length_app, length_drop; lia|].
  split; [rewrite <- Hlen; apply take_app_length|].
  apply (load_bytes_at_start _ _ _ old_bytes (drop (Z.to_nat old_size) init));
    [apply lookup_insert_eq | exact Hlen | exact Hold].
Qed.

(** X5. Two reallocations in a row, the second told the size the first
    one set, both return, and the final buffer starts with the first
    min(old_size, n1, n2) bytes of the original one. *)
Theorem sized_realloc_twice_keeps_common_prefix
    (h : heap) (str : Z) (r : RString) (n1 n2 old_size : Z) (old_bytes : list byte) :
  strings h !! str = Some r ->
  0 <= n1 -> 0 <= n2 ->
  load_bytes h (as_heap_ptr r) old_size = Some old_bytes ->
  exists h1 h2 strbuf content,
    rb_mmtk_str_sized_realloc_n_impl alloc str n1 old_size h = Some h1 /\
    rb_mmtk_str_sized_realloc_n_impl alloc str n2 n1 h1 = Some h2 /\
    strings h2 !! str = Some (mkRString (Ptr strbuf 0) n2 strbuf) /\
    blocks h2 !! strbuf = Some content /\
    length content = Z.to_nat n2 /\
    take (Z.to_nat (Z.min old_size (Z.min n1 n2))) content =
      take (Z.to_nat (Z.min old_size (Z.min n1 n2))) old_bytes.
Proof.
  intros Hr Hn1 Hn2 Hload.
  destruct (load_bytes_length _ _ _ _ Hload) as [Hold Hlen].
  destruct (sized_realloc_spec h str r n1 old_size old_bytes Hr Hn1 Hload)
    as (init1 & Hfresh1 & Hilen1 & Himpl1).
  set (b1 := (alloc n1 h).1) in *.
  set (content1 := take (Z.to_nat (Z.min old_size n1)) old_bytes ++
                   drop (Z.to_nat (Z.min old_size n1)) init1) in *.
  set (h1 := mkHeap (<[b1 := content1]> (blocks h))
               (<[str := mkRString (Ptr b1 0) n1 b1]> (strings h))) in *.
  assert (Hlen1 : length content1 = Z.to_nat n1)
    by (unfold content1; rewrite length_app, length_take, length_drop; lia).
  assert (Hr1 : strings h1 !! str = Some (mkRString (Ptr b1 0) n1 b1))
    by apply lookup_insert_eq.
  assert (Hload1 : load_bytes h1 (as_heap_ptr (mkRString (Ptr b1 0) n1 b1)) n1 =
                   Some content1).
  { apply (load_bytes_at_start h1 b1 n1 content1 []); [|exact Hlen1 | exact Hn1].
    rewrite app_nil_r. apply lookup_insert_eq. }
  destruct (sized_realloc_spec h1 str _ n2 n1 content1 Hr1 Hn2 Hload1)
    as (init2 & Hfresh2 & Hilen2 & Himpl2).
  eexists h1, _, (alloc n2 h1).1, _.
  split; [exact Himpl1|]. split; [exact Himpl2|]. cbn [blocks strings].
  split; [apply lookup_insert_eq|]. split; [apply lookup_insert_eq|].
  split; [rewrite length_app, length_take, length_drop; lia|].
  rewrite take_app_le by (rewrite length_take; lia).
  rewrite take_take. unfold content1.
  rewrite take_app_le by (rewrite length_take; lia).
  rewrite take_take. f_equal. lia.
Qed.

End MmtkFurtherProperties.

Lemma attach_keeps_existing_blocks_and_other_strings_witness :
  exists h' strbuf content,
    Mmtk.rb_mmtk_str_new_strbuf_copy_impl Mmtk.bump_new_strbuf 100 32 1 (Mmtk.Ptr 1 0) 10
      Mmtk.sample_heap = Some h' /\
    (forall b bs, Mmtk.blocks Mmtk.sample_heap !! b = Some bs ->
                  Mmtk.blocks h' !! b = Some bs) /\
    (forall p n bs, Mmtk.load_bytes Mmtk.sample_heap p n = Some bs ->
                    Mmtk.load_bytes h' p n = Some bs) /\
    (forall s, s <> 100 -> Mmtk.strings h' !! s = Mmtk.strings Mmtk.sample_heap !! s) /\
    Mmtk.blocks Mmtk.sample_heap !! strbuf = None /\
    Mmtk.blocks h' !! strbuf = Some content /\
    length content = Z.to_nat 32 /\
    take (Z.to_nat 10) content = Mmtk.hello_bytes /\
    dom (Mmtk.blocks h') = dom (Mmtk.blocks Mmtk.sample_heap) ∪ {[strbuf]} /\
    Mmtk.strings h' !! 100 = Some (Mmtk.mkRString (Mmtk.Ptr strbuf 0) 16 strbuf) /\
    dom (Mmtk.strings h') = dom (Mmtk.strings Mmtk.sample_heap).
Proof.
  apply (attach_keeps_existing_blocks_and_other_strings Mmtk.bump_new_strbuf
           bump_new_strbuf_ok Mmtk.sample_heap 100 (Mmtk.mkRString (Mmtk.Ptr 1 0) 16 1)
           32 1 (Mmtk.Ptr 1 0) 10 Mmtk.hello_bytes).
  - vm_compute. reflexivity.
  - lia.
  - vm_compute. reflexivity.
Defined.

Lemma attach_with_null_source_copies_nothing_witness :
  exists init,
    Mmtk.blocks Mmtk.sample_heap !! (Mmtk.bump_new_strbuf 4 Mmtk.sample_heap).1 = None /\
    Mmtk.blocks (Mmtk.bump_new_strbuf 4 Mmtk.sample_heap).2
      !! (Mmtk.bump_new_strbuf 4 Mmtk.sample_heap).1 = Some init /\
    Mmtk.rb_mmtk_str_new_strbuf_copy_impl Mmtk.bump_new_strbuf 100 4 0 Mmtk.NULL 99
      Mmtk.sample_heap =
      Some (Mmtk.mkHeap
              (<[(Mmtk.bump_new_strbuf 4 Mmtk.sample_heap).1 := init]>
                 (Mmtk.blocks Mmtk.sample_heap))
              (<[100 := Mmtk.mkRString (Mmtk.Ptr (Mmtk.bump_new_strbuf 4 Mmtk.sample_heap).1 0)
                          16 (Mmtk.bump_new_strbuf 4 Mmtk.sample_heap).1]>
                 (Mmtk.strings Mmtk.sample_heap))).
Proof.
  apply (attach_with_null_source_copies_nothing Mmtk.bump_new_strbuf bump_new_strbuf_ok
           Mmtk.sample_heap 100 (Mmtk.mkRString (Mmtk.Ptr 1 0) 16 1) 4 0 99).
  - vm_compute. reflexivity.
  - lia.
Defined.

(** A length of -1 with a terminator of one byte: an empty buffer. *)
Lemma new_strbuf_impl_logs_and_sizes_modulo_witness :
  exists strbuf init h',
    Mmtk.rb_mmtk_str_new_strbuf_impl Mmtk.bump_new_strbuf 100 (-1) 1 [] Mmtk.sample_heap =
      ([] ++ [String.append "allocating string chunk" Mmtk.newline], Some h') /\
    Mmtk.blocks Mmtk.sample_heap !! strbuf = None /\
    Mmtk.blocks h' !! strbuf = Some init /\
    length init = Z.to_nat ((-1 + 1) mod 2 ^ 64) /\
    (0 <= -1 + 1 < 2 ^ 64 -> length init = Z.to_nat (-1 + 1)) /\
    Mmtk.strings h' !! 100 = Some (Mmtk.mkRString (Mmtk.Ptr strbuf 0) 16 strbuf).
Proof.
  apply (new_strbuf_impl_logs_and_sizes_modulo Mmtk.bump_new_strbuf bump_new_strbuf_ok
           Mmtk.sample_heap 100 (Mmtk.mkRString (Mmtk.Ptr 1 0) 16 1) (-1) 1 []).
  vm_compute. reflexivity.
Defined.

(** The 16-byte buffer of the owner 100 grows to 24 bytes. *)
Lemma sized_realloc_grow_keeps_all_bytes_witness :
  exists strbuf content h',
    Mmtk.rb_mmtk_str_sized_realloc_n_impl Mmtk.bump_new_strbuf 100 24 16 Mmtk.sample_heap
      = Some h' /\
    Mmtk.strings h' !! 100 = Some (Mmtk.mkRString (Mmtk.Ptr strbuf 0) 24 strbuf) /\
    Mmtk.blocks h' !! strbuf = Some content /\
    length content = Z.to_nat 24 /\
    take (Z.to_nat 16) content = Mmtk.hello_bytes ++ replicate 6 x00 /\
    Mmtk.load_bytes h' (Mmtk.Ptr strbuf 0) 16 = Some (Mmtk.hello_bytes ++ replicate 6 x00).
Proof.
  apply (sized_realloc_grow_keeps_all_bytes Mmtk.bump_new_strbuf bump_new_strbuf_ok
           Mmtk.sample_heap 100 (Mmtk.mkRString (Mmtk.Ptr 1 0) 16 1) 24 16
           (Mmtk.hello_bytes ++ replicate 6 x00)).
  - vm_compute. reflexivity.
  - lia.
  - vm_compute. reflexivity.
Defined.

(** The 16-byte buffer shrinks to 8 bytes and grows back to 16. *)
Lemma sized_realloc_twice_keeps_common_prefix_witness :
  exists h1 h2 strbuf content,
    Mmtk.rb_mmtk_str_sized_realloc_n_impl Mmtk.bump_new_strbuf 100 8 16 Mmtk.sample_heap
      = Some h1 /\
    Mmtk.rb_mmtk_str_sized_realloc_n_impl Mmtk.bump_new_strbuf 100 16 8 h1 = Some h2 /\
    Mmtk.strings h2 !! 100 = Some (Mmtk.mkRString (Mmtk.Ptr strbuf 0) 16 strbuf) /\
    Mmtk.blocks h2 !! strbuf = Some content /\
    length content = Z.to_nat 16 /\
    take (Z.to_nat (Z.min 16 (Z.min 8 16))) content =
      take (Z.to_nat (Z.min 16 (Z.min 8 16))) (Mmtk.hello_bytes ++ replicate 6 x00).
Proof.
  apply (sized_realloc_twice_keeps_common_prefix Mmtk.bump_new_strbuf bump_new_strbuf_ok
           Mmtk.sample_heap 100 (Mmtk.mkRString (Mmtk.Ptr 1 0) 16 1) 8 16 16
           (Mmtk.hello_bytes ++ replicate 6 x00)).
  - vm_compute. reflexivity.
  - lia.
  - lia.
  - vm_compute. reflexivity.
Defined.

(** ** yjit.c: page size, alignment, tracing flags *)

Section YjitPlatformProperties.

Import Yjit.

(** X6. [rb_yjit_get_page_size] returns exactly when the operating system
    reports a page size between 1 and 1 GiB, and then returns that very
    number (the narrowing to 32 bits loses nothing); any other report ends
    the process. *)
Theorem page_size_returned_only_when_sane (sysconf_pagesize : Z) :
  (0 < sysconf_pagesize <= 2 ^ 30 ->
   rb_yjit_get_page_size sysconf_pagesize = Returned sysconf_pagesize) /\
  (sysconf_pagesize <= 0 \/ 2 ^ 30 < sysconf_pagesize ->
   rb_yjit_get_page_size sysconf_pagesize = Aborted).
Proof.
  unfold rb_yjit_get_page_size. cbv zeta. split.
  - intros Hs.
    destruct (sysconf_pagesize <=? 0) eqn:E1; zbool; [lia|].
    destruct (1073741824 <? sysconf_pagesize) eqn:E2; zbool; [lia|].
    f_equal. apply wrap32_small. lia.
  - intros Hs.
    destruct (sysconf_pagesize <=? 0) eqn:E1; zbool; [reflexivity|].
    destruct (1073741824 <? sysconf_pagesize) eqn:E2; zbool; [reflexivity | lia].
Qed.

Lemma align_ptr_rem (ptr multiple : Z) :
  0 < multiple -> (multiple | 2 ^ 32) -> 0 <= ptr < 2 ^ 64 ->
  wrap32 (wrap64 ptr) mod multiple = ptr mod multiple.
Proof.
  intros Hm Hdiv Hp. unfold wrap32, wrap64, SIZE_MAX_plus_1.
  rewrite (Z.mod_small ptr (2 ^ 64)) by lia.
  apply Z.mod_mod_divide. exact Hdiv.
Qed.

(** X7. For a [multiple] that divides 2^32 (a page size), [align_ptr]
    returns the least address at or above [ptr] that is a multiple of it:
    the result is aligned, is less than [multiple] above [ptr], is [ptr]
    itself when [ptr] is aligned, and aligning it again changes nothing. *)
Theorem align_ptr_rounds_up_to_multiple (ptr multiple : Z) :
  0 < multiple -> (multiple | 2 ^ 32) -> 0 <= ptr -> ptr + multiple <= 2 ^ 64 ->
  exists q,
    align_ptr ptr multiple = Some q /\
    q mod multiple = 0 /\
    ptr <= q < ptr + multiple /\
    (ptr mod multiple = 0 -> q = ptr) /\
    align_ptr q multiple = Some q.
Proof.
  intros Hm Hdiv Hp Hfit.
  assert (Hm32 : multiple <= 2 ^ 32) by (apply Z.divide_pos_le; [lia | exact Hdiv]).
  pose proof (Z.mod_pos_bound ptr multiple Hm) as Hrem.
  pose proof (Z.div_mod ptr multiple ltac:(lia)) as Hdm.
  assert (Haligned : forall q, 0 <= q < 2 ^ 64 -> q mod multiple = 0 ->
                               align_ptr q multiple = Some q).
  { intros q Hq Hq0. unfold align_ptr.
    replace (multiple =? 0) with false by (symmetry; apply Z.eqb_neq; lia).
    cbv zeta. rewrite align_ptr_rem by assumption. rewrite Hq0. reflexivity. }
  destruct (Z.eq_dec (ptr mod multiple) 0) as [H0|Hne].
  - exists ptr. split; [apply Haligned; [lia | exact H0]|].
    split; [exact H0|]. split; [lia|]. split; [reflexivity|].
    apply Haligned; [lia | exact H0].
  - assert (Hq0 : (ptr + (multiple - ptr mod multiple)) mod multiple = 0).
    { replace (ptr + (multiple - ptr mod multiple))
        with ((ptr / multiple + 1) * multiple) by lia.
      apply Z_mod_mult. }
    exists (ptr + (multiple - ptr mod multiple)).
    split.
    { unfold align_ptr.
      replace (multiple =? 0) with false by (symmetry; apply Z.eqb_neq; lia).
      cbv zeta. rewrite align_ptr_rem by (try assumption; lia).
      replace (ptr mod multiple =? 0) with false by (symmetry; apply Z.eqb_neq; lia).
      rewrite wrap32_small by lia.
      unfold wrap64, SIZE_MAX_plus_1. rewrite Z.mod_small by lia. reflexivity. }
    split; [exact Hq0|]. split; [lia|]. split; [intros; contradiction|].
    apply Haligned; [|exact Hq0].
    split; [lia|].
    assert (ptr + (multiple - ptr mod multiple) <> 2 ^ 64); [|lia].
    intros Heq. rewrite Heq in Hq0.
    destruct Hdiv as [k Hk].
    assert (H64 : 2 ^ 64 = (k * 2 ^ 32) * multiple) by (rewrite <- Z.mul_assoc, (Z.mul_comm (2 ^ 32)), Z.mul_assoc, <- Hk; reflexivity).
    lia.
Qed.

(** X10. [rb_c_method_tracing_currently_enabled] is true exactly when the
    c_call bit or the c_return bit is set in the flags that apply, which
    are the global flags with several ractors and the ractor's own hooks
    otherwise; with a single ractor the global flags play no part. *)
Theorem c_method_tracing_enabled_iff_either_event
    (RUBY_EVENT_C_CALL RUBY_EVENT_C_RETURN : Z)
    (multi_ractor : bool) (global_flags hooks_events other_flags : Z) :
  rb_c_method_tracing_currently_enabled RUBY_EVENT_C_CALL RUBY_EVENT_C_RETURN
    multi_ractor global_flags hooks_events =
    negb (Z.land (if multi_ractor then global_flags else hooks_events)
            RUBY_EVENT_C_CALL =? 0) ||
    negb (Z.land (if multi_ractor then global_flags else hooks_events)
            RUBY_EVENT_C_RETURN =? 0) /\
  rb_c_method_tracing_currently_enabled RUBY_EVENT_C_CALL RUBY_EVENT_C_RETURN
    false global_flags hooks_events =
  rb_c_method_tracing_currently_enabled RUBY_EVENT_C_CALL RUBY_EVENT_C_RETURN
    false other_flags hooks_events.
Proof.
  split; [|reflexivity].
  unfold rb_c_method_tracing_currently_enabled. cbv zeta.
  set (ev := if multi_ractor then global_flags else hooks_events).
  rewrite Z.land_lor_distr_r.
  destruct (Z.land ev RUBY_EVENT_C_CALL =? 0) eqn:E1;
    destruct (Z.land ev RUBY_EVENT_C_RETURN =? 0) eqn:E2; zbool; cbn [negb orb].
  - rewrite E1, E2. reflexivity.
  - rewrite E1, Z.lor_0_l. apply Z.eqb_neq in E2. rewrite E2. reflexivity.
  - destruct (Z.lor (Z.land ev RUBY_EVENT_C_CALL) (Z.land ev RUBY_EVENT_C_RETURN) =? 0)
      eqn:E; zbool; [|reflexivity].
    apply Z.lor_eq_0_iff in E as [E _]. contradiction.
  - destruct (Z.lor (Z.land ev RUBY_EVENT_C_CALL) (Z.land ev RUBY_EVENT_C_RETURN) =? 0)
      eqn:E; zbool; [|reflexivity].
    apply Z.lor_eq_0_iff in E as [E _]. contradiction.
Qed.

End YjitPlatformProperties.

Lemma page_size_returned_only_when_sane_witness :
  Yjit.rb_yjit_get_page_size 4096 = Yjit.Returned 4096 /\
  Yjit.rb_yjit_get_page_size 0 = Yjit.Aborted /\
  Yjit.rb_yjit_get_page_size (2 ^ 31) = Yjit.Aborted.
Proof.
  split; [|split].
  - apply (page_size_returned_only_when_sane 4096). lia.
  - apply (page_size_returned_only_when_sane 0). lia.
  - apply (page_size_returned_only_when_sane (2 ^ 31)). lia.
Defined.

Lemma align_ptr_rounds_up_to_multiple_witness :
  exists q,
    Yjit.align_ptr 94000000001234 4096 = Some q /\
    q mod 4096 = 0 /\
    94000000001234 <= q < 94000000001234 + 4096 /\
    (94000000001234 mod 4096 = 0 -> q = 94000000001234) /\
    Yjit.align_ptr q 4096 = Some q.
Proof.
  apply (align_ptr_rounds_up_to_multiple 94000000001234 4096).
  - lia.
  - exists (2 ^ 20). reflexivity.
  - lia.
  - lia.
Defined.

(** ** yjit.c: address-space reservation *)

Section ReserveProperties.

Import Yjit.

Variable mmap_ret : list reserve_call -> Z -> Z -> Z -> Z -> Z.

Lemma all_failed_app (calls1 : list reserve_call) :
  forall (tr calls2 : list reserve_call),
    all_failed mmap_ret tr (calls1 ++ calls2) <->
    all_failed mmap_ret tr calls1 /\ all_failed mmap_ret (tr ++ calls1) calls2.
Proof.
  induction calls1 as [|c calls1 IH]; intros tr calls2.
  - cbn [app all_failed]. rewrite app_nil_r. tauto.
  - destruct c as [a l p f|m]; cbn [app all_failed]; rewrite IH, <- app_assoc;
      cbn [app]; tauto.
Qed.

(** The probing loop stops at the first answer that is not [MAP_FAILED],
    or with its last failed probe. *)
Lemma reserve_probe_loop_shape (probe_region_end mem_size : Z) (fuel : nat) :
  forall (req_addr : Z) (tr : list reserve_call) (mem_block : Z) (tr' : list reserve_call),
    reserve_probe_loop mmap_ret fuel req_addr probe_region_end mem_size tr =
      Some (mem_block, tr') ->
    exists failed a,
      tr' = tr ++ failed ++ [Mmap a mem_size PROT_NONE probe_flags] /\
      all_failed mmap_ret tr failed /\
      mmap_ret (tr ++ failed) a mem_size PROT_NONE probe_flags = mem_block.
Proof.
  induction fuel as [|fuel IH]; intros req_addr tr mem_block tr' H; [discriminate|].
  cbn [reserve_probe_loop] in H. unfold mmap in H. fold probe_flags in H.
  destruct (mmap_ret tr req_addr mem_size PROT_NONE probe_flags =? MAP_FAILED) eqn:E;
    cbn [negb] in H.
  - destruct (wrap64 (req_addr + 4 * 1024 * 1024) <? probe_region_end).
    + apply IH in H as (failed & a & Htr & Hfailed & Hret).
      exists (Mmap req_addr mem_size PROT_NONE probe_flags :: failed), a.
      rewrite <- app_assoc in Htr, Hret. cbn [app] in Htr, Hret.
      split; [exact Htr|]. split; [|exact Hret].
      cbn [all_failed]. zbool. split; assumption.
    + injection H as <- <-. exists [], req_addr. rewrite app_nil_r.
      split; [reflexivity|]. split; reflexivity.
  - injection H as <- <-. exists [], req_addr. rewrite app_nil_r.
    split; [reflexivity|]. split; reflexivity.
Qed.

(** X8. Whatever the kernel answers, a reservation that returns hands out
    the answer of its last [mmap] call, which is not [MAP_FAILED], and
    every call before that one had failed; a reservation that ends the
    process has seen every probe and then the fallback call without an
    address hint fail, and has reported it with [perror]. *)
Theorem reserve_returns_first_successful_mapping
    (fuel : nat) (sysconf_pagesize cfunc_sample_addr mem_size : Z)
    (tr tr' : list reserve_call) (out : outcome Z) :
  rb_yjit_reserve_addr_space mmap_ret fuel sysconf_pagesize cfunc_sample_addr mem_size tr =
    inr (out, tr') ->
  match out with
  | Returned p =>
      p <> MAP_FAILED /\
      exists failed a flags,
        tr' = tr ++ failed ++ [Mmap a mem_size PROT_NONE flags] /\
        all_failed mmap_ret tr failed /\
        mmap_ret (tr ++ failed) a mem_size PROT_NONE flags = p
  | Aborted =>
      exists probes,
        probes <> [] /\
        tr' = tr ++ probes ++
                [Mmap 0 mem_size PROT_NONE (Z.lor MAP_PRIVATE MAP_ANONYMOUS);
                 Perror "ruby: yjit: mmap:"] /\
        all_failed mmap_ret tr
          (probes ++ [Mmap 0 mem_size PROT_NONE (Z.lor MAP_PRIVATE MAP_ANONYMOUS)])
  end.
Proof.
  unfold rb_yjit_reserve_addr_space. cbv zeta. intros H.
  destruct (align_ptr cfunc_sample_addr (wrap32 sysconf_pagesize)) as [req_addr|];
    [|discriminate].
  destruct (reserve_probe_loop mmap_ret fuel req_addr
              (wrap64 (cfunc_sample_addr + INT32_MAX)) mem_size tr)
    as [[mem_block tr1]|] eqn:Eloop; [|discriminate].
  apply reserve_probe_loop_shape in Eloop as (failed & a & Htr1 & Hfailed & Hret).
  destruct (mem_block =? MAP_FAILED) eqn:E; zbool.
  - unfold mmap in H.
    destruct (mmap_ret tr1 0 mem_size PROT_NONE (Z.lor MAP_PRIVATE MAP_ANONYMOUS)
              =? MAP_FAILED) eqn:E2; zbool; injection H as <- <-.
    + exists (failed ++ [Mmap a mem_size PROT_NONE probe_flags]).
      split; [intros Hnil; apply app_eq_nil in Hnil as [_ Hnil]; discriminate|].
      split; [rewrite Htr1, <- !app_assoc; reflexivity|].
      apply all_failed_app. split.
      * apply all_failed_app. split; [exact Hfailed|].
        cbn [all_failed]. split; [congruence | exact I].
      * cbn [all_failed]. rewrite <- Htr1. split; [exact E2 | exact I].
    + split; [exact E2|].
      exists (failed ++ [Mmap a mem_size PROT_NONE probe_flags]), 0,
        (Z.lor MAP_PRIVATE MAP_ANONYMOUS).
      split; [rewrite Htr1, <- !app_assoc; reflexivity|].
      split; [|rewrite <- Htr1; reflexivity].
      apply all_failed_app. split; [exact Hfailed|].
      cbn [all_failed]. split; [congruence | exact I].
  - cbv beta iota zeta in H.
    replace (mem_block =? MAP_FAILED) with false in H
      by (symmetry; apply Z.eqb_neq; exact E).
    injection H as <- <-. split; [exact E|].
    exists failed, a, probe_flags. split; [exact Htr1|]. split; [exact Hfailed | exact Hret].
Qed.

(** The probing loop makes at most [n] probes when [n] steps of 4 MiB
    reach the end of the region, all of them inside the region. *)
Lemma reserve_probe_loop_bounded (probe_region_end mem_size : Z) (n : nat) :
  forall (fuel : nat) (req_addr : Z) (tr : list reserve_call),
    (n <= fuel)%nat ->
    0 <= req_addr < probe_region_end ->
    probe_region_end + 4 * 1024 * 1024 <= 2 ^ 64 ->
    probe_region_end - req_addr <= Z.of_nat n * (4 * 1024 * 1024) ->
    exists mem_block probes,
      reserve_probe_loop mmap_ret fuel req_addr probe_region_end mem_size tr =
        Some (mem_block, tr ++ probes) /\
      (length probes <= n)%nat /\
      Forall (probe_between mem_size req_addr probe_region_end) probes.
Proof.
  induction n as [|n IH]; intros fuel req_addr tr Hfuel Hreq Hend Hspan; [lia|].
  destruct fuel as [|fuel]; [lia|].
  cbn [reserve_probe_loop]. unfold mmap. fold probe_flags.
  assert (Hhere : probe_between mem_size req_addr probe_region_end
                    (Mmap req_addr mem_size PROT_NONE probe_flags))
    by (exists req_addr; split; [reflexivity | lia]).
  destruct (mmap_ret tr req_addr mem_size PROT_NONE probe_flags =? MAP_FAILED) eqn:E;
    cbn [negb].
  - assert (Hwrap : wrap64 (req_addr + 4 * 1024 * 1024) = req_addr + 4 * 1024 * 1024)
      by (unfold wrap64, SIZE_MAX_plus_1; apply Z.mod_small; lia).
    rewrite Hwrap.
    destruct (req_addr + 4 * 1024 * 1024 <? probe_region_end) eqn:Enext; zbool.
    + destruct (IH fuel (req_addr + 4 * 1024 * 1024)
                  (tr ++ [Mmap req_addr mem_size PROT_NONE probe_flags]))
        as (mem_block & probes & Hloop & Hlen & Hall); [lia | lia | exact Hend | lia |].
      exists mem_block, (Mmap req_addr mem_size PROT_NONE probe_flags :: probes).
      rewrite Hloop, <- app_assoc. split; [reflexivity|].
      split; [cbn [length]; lia|].
      constructor; [exact Hhere|].
      eapply Forall_impl; [exact Hall|].
      intros c (a & Hc & Ha). exists a. split; [exact Hc | lia].
    + eexists _, [_]. split; [reflexivity|]. split; [cbn [length]; lia|].
      constructor; [exact Hhere | constructor].
  - eexists _, [_]. split; [reflexivity|]. split; [cbn [length]; lia|].
    constructor; [exact Hhere | constructor].
Qed.

(** X9. With a page size between 1 and 1 GiB and no wrap-around of the
    address space, the reservation makes at most 512 probes, each for
    [mem_size] bytes at an address from the function's own up to less than
    [INT32_MAX] above it, followed by at most one fallback call; 512 turns
    of the loop are enough for it to finish. *)
Theorem reserve_probes_are_near_and_bounded
    (fuel : nat) (sysconf_pagesize cfunc_sample_addr mem_size : Z)
    (tr : list reserve_call) :
  (512 <= fuel)%nat ->
  0 < wrap32 sysconf_pagesize <= 2 ^ 30 ->
  0 <= cfunc_sample_addr ->
  cfunc_sample_addr + 2 ^ 32 <= 2 ^ 64 ->
  exists out probes rest,
    rb_yjit_reserve_addr_space mmap_ret fuel sysconf_pagesize cfunc_sample_addr mem_size tr =
      inr (out, tr ++ probes ++ rest) /\
    (1 <= length probes <= 512)%nat /\
    Forall (probe_between mem_size cfunc_sample_addr (cfunc_sample_addr + INT32_MAX))
      probes /\
    (rest = [] \/
     rest = [Mmap 0 mem_size PROT_NONE (Z.lor MAP_PRIVATE MAP_ANONYMOUS)] \/
     rest = [Mmap 0 mem_size PROT_NONE (Z.lor MAP_PRIVATE MAP_ANONYMOUS);
             Perror "ruby: yjit: mmap:"]).
Proof.
  intros Hfuel Hpage Hc Hfit.
  unfold rb_yjit_reserve_addr_space. cbv zeta.
  set (page_size := wrap32 sysconf_pagesize) in *.
  assert (Hend : wrap64 (cfunc_sample_addr + INT32_MAX) = cfunc_sample_addr + INT32_MAX)
    by (unfold wrap64, SIZE_MAX_plus_1, INT32_MAX; apply Z.mod_small; lia).
  rewrite Hend.
  assert (Hreq : exists req_addr,
             align_ptr cfunc_sample_addr page_size = Some req_addr /\
             cfunc_sample_addr <= req_addr < cfunc_sample_addr + page_size).
  { unfold align_ptr.
    replace (page_size =? 0) with false by (symmetry; apply Z.eqb_neq; lia). cbv zeta.
    pose proof (Z.mod_pos_bound (wrap32 (wrap64 cfunc_sample_addr)) page_size ltac:(lia))
      as Hrem.
    set (rem := wrap32 (wrap64 cfunc_sample_addr) mod page_size) in *.
    destruct (rem =? 0) eqn:E; zbool.
    - eexists. split; [reflexivity | lia].
    - eexists. split; [reflexivity|].
      rewrite wrap32_small by lia. unfold wrap64, SIZE_MAX_plus_1.
      rewrite Z.mod_small by lia. lia. }
  destruct Hreq as (req_addr & Halign & Hreq). rewrite Halign.
  unfold INT32_MAX in *.
  assert (H1 : 0 <= req_addr < cfunc_sample_addr + (2 ^ 31 - 1)) by lia.
  assert (H2 : cfunc_sample_addr + (2 ^ 31 - 1) + 4 * 1024 * 1024 <= 2 ^ 64) by lia.
  assert (H3 : cfunc_sample_addr + (2 ^ 31 - 1) - req_addr <=
               Z.of_nat 512 * (4 * 1024 * 1024))
    by (change (Z.of_nat 512) with 512; lia).
  destruct (reserve_probe_loop_bounded (cfunc_sample_addr + (2 ^ 31 - 1)) mem_size 512
              fuel req_addr tr Hfuel H1 H2 H3)
    as (mem_block & probes & Hloop & Hlen & Hall).
  rewrite Hloop.
  assert (Hnonempty : (1 <= length probes)%nat).
  { destruct probes as [|c probes]; [|cbn [length]; lia].
    exfalso. rewrite app_nil_r in Hloop.
    apply reserve_probe_loop_shape in Hloop as (failed & a & Htr & _).
    apply (f_equal length) in Htr. rewrite !length_app in Htr. cbn [length] in Htr. lia. }
  assert (Hnear : Forall (probe_between mem_size cfunc_sample_addr
                            (cfunc_sample_addr + (2 ^ 31 - 1))) probes).
  { eapply Forall_impl; [exact Hall|].
    intros c (a & Hc' & Ha). exists a. split; [exact Hc' | lia]. }
  destruct (mem_block =? MAP_FAILED) eqn:E.
  - unfold mmap.
    destruct (mmap_ret (tr ++ probes) 0 mem_size PROT_NONE (Z.lor MAP_PRIVATE MAP_ANONYMOUS)
              =? MAP_FAILED) eqn:E2.
    + eexists _, probes, [_; _]. rewrite <- !app_assoc. cbn [app].
      split; [reflexivity|]. split; [lia|]. split; [exact Hnear|]. right. right. reflexivity.
    + eexists _, probes, [_]. rewrite <- !app_assoc.
      split; [reflexivity|]. split; [lia|]. split; [exact Hnear|]. right. left. reflexivity.
  - cbv beta iota zeta. rewrite E. eexists _, probes, []. rewrite app_nil_r.
    split; [reflexivity|]. split; [lia|]. split; [exact Hnear|]. left. reflexivity.
Qed.

End ReserveProperties.

(** The function sits at 5000 and the kernel maps from 8 MiB past 4096 on:
    the probes at 8192 and 4 MiB later fail, the third is granted. *)
Lemma reserve_returns_first_successful_mapping_witness :
  8396800 <> Yjit.MAP_FAILED /\
  exists failed a flags,
    [Yjit.Mmap 8192 65536 0 1048610; Yjit.Mmap 4202496 65536 0 1048610;
     Yjit.Mmap 8396800 65536 0 1048610] =
      [] ++ failed ++ [Yjit.Mmap a 65536 Yjit.PROT_NONE flags] /\
    Yjit.all_failed Yjit.sample_mmap [] failed /\
    Yjit.sample_mmap ([] ++ failed) a 65536 Yjit.PROT_NONE flags = 8396800.
Proof.
  apply (reserve_returns_first_successful_mapping Yjit.sample_mmap 512 4096 5000 65536 []
           [Yjit.Mmap 8192 65536 0 1048610; Yjit.Mmap 4202496 65536 0 1048610;
            Yjit.Mmap 8396800 65536 0 1048610]
           (Yjit.Returned 8396800)).
  vm_compute. reflexivity.
Defined.

Lemma reserve_probes_are_near_and_bounded_witness :
  exists out probes rest,
    Yjit.rb_yjit_reserve_addr_space Yjit.sample_mmap 512 4096 5000 65536 [] =
      inr (out, [] ++ probes ++ rest) /\
    (1 <= length probes <= 512)%nat /\
    Forall (Yjit.probe_between 65536 5000 (5000 + Yjit.INT32_MAX)) probes /\
    (rest = [] \/
     rest = [Yjit.Mmap 0 65536 Yjit.PROT_NONE (Z.lor Yjit.MAP_PRIVATE Yjit.MAP_ANONYMOUS)] \/
     rest = [Yjit.Mmap 0 65536 Yjit.PROT_NONE (Z.lor Yjit.MAP_PRIVATE Yjit.MAP_ANONYMOUS);
             Yjit.Perror "ruby: yjit: mmap:"]).
Proof.
  apply (reserve_probes_are_near_and_bounded Yjit.sample_mmap 512 4096 5000 65536 []).
  - lia.
  - vm_compute. split; [reflexivity | discriminate].
  - lia.
  - lia.
Defined.

(** ** yjit.c: iseq payload, program counters, frames *)

Section IseqAccessProperties.

Import Yjit.

(** X11. The payload slot is written once: [rb_iseq_set_yjit_payload]
    returns exactly for an iseq object that has a body whose slot is null;
    the payload can then be read back, the other fields of the iseq are as
    before, and after a payload that is not null every further set ends the
    process. *)
Theorem yjit_payload_set_once_then_read_back (iseq : rb_iseq_t) (payload : Z) :
  ((exists b, imemo_iseq_p iseq = true /\ body iseq = Some b /\ yjit_payload b = 0) <->
   (exists iseq', rb_iseq_set_yjit_payload iseq payload = Returned iseq')) /\
  (forall iseq',
     rb_iseq_set_yjit_payload iseq payload = Returned iseq' ->
     rb_iseq_get_yjit_payload iseq = Returned 0 /\
     rb_iseq_get_yjit_payload iseq' = Returned payload /\
     imemo_iseq_p iseq' = imemo_iseq_p iseq /\
     iseq_translated_p iseq' = iseq_translated_p iseq /\
     (body_code <$> body iseq') = (body_code <$> body iseq) /\
     (body_jit_func <$> body iseq') = (body_jit_func <$> body iseq) /\
     (payload <> 0 -> forall q, rb_iseq_set_yjit_payload iseq' q = Aborted)).
Proof.
  unfold rb_iseq_set_yjit_payload, rb_iseq_get_yjit_payload.
  destruct iseq as [imemo translated [b|]]; cbn [imemo_iseq_p iseq_translated_p body].
  - destruct imemo; cbn [negb].
    + destruct (yjit_payload b =? 0) eqn:E; zbool; cbn [negb].
      * split.
        { split; [eauto | intros _; exists b; auto]. }
        intros iseq' [= <-]. cbn [imemo_iseq_p iseq_translated_p body yjit_payload negb].
        rewrite E. repeat split.
        intros Hp q. replace (payload =? 0) with false by (symmetry; apply Z.eqb_neq; exact Hp).
        reflexivity.
      * split; [|discriminate].
        split; [intros (b' & _ & [= <-] & Hp); contradiction | intros [? [=]]].
    + split; [|discriminate].
      split; [intros (b' & [=] & _) | intros [? [=]]].
  - split.
    + split; [intros (b' & _ & [=] & _) | destruct imemo; intros [? [=]]].
    + destruct imemo; discriminate.
Qed.

(** X12. For a translated iseq whose encoded sequence has the recorded
    size, [rb_iseq_pc_at_idx] yields a program counter exactly for the
    indices below that size and ends the process for the others, and
    [rb_iseq_opcode_at_pc] at that program counter is the opcode of the
    word at the index. *)
Theorem opcode_at_pc_of_pc_at_idx (T : insn_table) (iseq : rb_iseq_t) (b : iseq_body)
    (insn_idx : Z) :
  imemo_iseq_p iseq = true ->
  iseq_translated_p iseq = true ->
  body iseq = Some b ->
  Z.of_nat (length (iseq_encoded (body_code b))) = iseq_size (body_code b) ->
  0 <= insn_idx ->
  (insn_idx < iseq_size (body_code b) ->
   exists pc at_pc,
     rb_iseq_pc_at_idx iseq insn_idx = Some (Returned pc) /\
     iseq_encoded (body_code b) !! Z.to_nat insn_idx = Some at_pc /\
     rb_iseq_opcode_at_pc T iseq pc = Some (Returned (rb_vm_insn_addr2opcode T at_pc))) /\
  (iseq_size (body_code b) <= insn_idx ->
   rb_iseq_pc_at_idx iseq insn_idx = Some Aborted).
Proof.
  intros Himemo Htrans Hbody Hsize Hidx.
  unfold rb_iseq_pc_at_idx, rb_iseq_opcode_at_pc. rewrite Himemo, Htrans, Hbody.
  cbn [negb]. split.
  - intros Hlt.
    replace (insn_idx <? iseq_size (body_code b)) with true by (zbool_true; lia).
    destruct (lookup_lt_is_Some_2 (iseq_encoded (body_code b)) (Z.to_nat insn_idx)
                ltac:(lia)) as [at_pc Hat].
    exists insn_idx, at_pc. cbn [negb]. split; [reflexivity|]. split; [exact Hat|].
    replace (insn_idx <? 0) with false by (symmetry; apply Z.ltb_ge; lia).
    rewrite Hat. reflexivity.
  - intros Hge.
    replace (insn_idx <? iseq_size (body_code b)) with false
      by (symmetry; apply Z.ltb_ge; lia).
    reflexivity.
Qed.

(** X13. An iseq that the leaf detection accepts reads, through
    [rb_iseq_pc_at_idx] and [rb_iseq_opcode_at_pc], as the builtin dispatch
    at index 0 and as the return right after the dispatch, and its size is
    the sum of the two lengths. *)
Theorem detected_leaf_reads_as_dispatch_then_leave (T : insn_table) (iseq : rb_iseq_t)
    (b : iseq_body) :
  0 < insn_len T (BIN_opt_invokebuiltin_delegate_leave T) ->
  0 < insn_len T (BIN_leave T) ->
  insn_len T (BIN_opt_invokebuiltin_delegate_leave T) + insn_len T (BIN_leave T) < 2 ^ 32 ->
  imemo_iseq_p iseq = true ->
  iseq_translated_p iseq = true ->
  body iseq = Some b ->
  rb_leaf_invokebuiltin_iseq_p T (body_code b) = Some true ->
  iseq_size (body_code b) =
    insn_len T (BIN_opt_invokebuiltin_delegate_leave T) + insn_len T (BIN_leave T) /\
  rb_iseq_pc_at_idx iseq 0 = Some (Returned 0) /\
  rb_iseq_opcode_at_pc T iseq 0 =
    Some (Returned (BIN_opt_invokebuiltin_delegate_leave T)) /\
  rb_iseq_pc_at_idx iseq (insn_len T (BIN_opt_invokebuiltin_delegate_leave T)) =
    Some (Returned (insn_len T (BIN_opt_invokebuiltin_delegate_leave T))) /\
  rb_iseq_opcode_at_pc T iseq (insn_len T (BIN_opt_invokebuiltin_delegate_leave T)) =
    Some (Returned (BIN_leave T)).
Proof.
  intros Hl1 Hl2 Hsum Himemo Htrans Hbody Hleaf.
  unfold rb_leaf_invokebuiltin_iseq_p in Hleaf. cbv zeta in Hleaf.
  rewrite (wrap32_small (insn_len T (BIN_opt_invokebuiltin_delegate_leave T))) in Hleaf
    by lia.
  rewrite (wrap32_small (insn_len T (BIN_leave T))) in Hleaf by lia.
  rewrite wrap32_small in Hleaf by lia.
  set (len1 := insn_len T (BIN_opt_invokebuiltin_delegate_leave T)) in *.
  set (len2 := insn_len T (BIN_leave T)) in *.
  destruct (iseq_size (body_code b) =? len1 + len2) eqn:Esz; cbn [negb] in Hleaf;
    [|discriminate].
  destruct (iseq_encoded (body_code b) !! 0%nat) as [e0|] eqn:He0; [|discriminate].
  destruct (rb_vm_insn_addr2opcode T e0 =? BIN_opt_invokebuiltin_delegate_leave T) eqn:E0;
    cbn [negb] in Hleaf; [|discriminate].
  destruct (iseq_encoded (body_code b) !! Z.to_nat len1) as [e1|] eqn:He1; [|discriminate].
  destruct (rb_vm_insn_addr2opcode T e1 =? BIN_leave T) eqn:E1; cbn [negb] in Hleaf;
    [|discriminate].
  zbool.
  unfold rb_iseq_pc_at_idx, rb_iseq_opcode_at_pc. rewrite Himemo, Htrans, Hbody.
  cbn [negb].
  replace (0 <? iseq_size (body_code b)) with true by (zbool_true; lia).
  replace (len1 <? iseq_size (body_code b)) with true by (zbool_true; lia).
  replace (len1 <? 0) with false by (symmetry; apply Z.ltb_ge; lia).
  change (0 <? 0) with false. change (Z.to_nat 0) with 0%nat. cbn [negb].
  rewrite He0, He1, E0, E1.
  repeat split; assumption.
Qed.

(** X14. Environment hops add up: [a + b] hops from a frame are [b] hops
    from the environment reached in [a] hops, and no hop is the frame's own
    environment pointer. *)
Theorem ep_level_hops_add (VM_ENV_PREV_EP : Z -> Z) (cfp : rb_control_frame_struct)
    (a b : Z) :
  0 <= a -> 0 <= b ->
  rb_get_cfp_ep_level VM_ENV_PREV_EP cfp 0 = cfp_ep cfp /\
  rb_get_cfp_ep_level VM_ENV_PREV_EP cfp (a + b) =
    rb_get_cfp_ep_level VM_ENV_PREV_EP
      (mkCfp (cfp_pc cfp) (cfp_sp cfp) (cfp_iseq cfp) (cfp_self cfp)
         (rb_get_cfp_ep_level VM_ENV_PREV_EP cfp a)) b.
Proof.
  intros Ha Hb. split; [reflexivity|].
  unfold rb_get_cfp_ep_level. cbn [cfp_ep].
  rewrite Z2Nat.inj_add by assumption.
  generalize (cfp_ep cfp). generalize (Z.to_nat b).
  induction (Z.to_nat a) as [|n IH]; intros m ep; [reflexivity|].
  cbn [Nat.add ep_hops]. apply IH.
Qed.

(** X22. [rb_yjit_compile_iseq] raises one barrier before the generator
    runs and hands it the entry pointers untouched; on return every entry
    but the compiled iseq's is as the generator left it, and so is the
    count of barriers. *)
Theorem compile_writes_only_its_own_entry
    (gen : Z -> Z -> vm -> Z * vm) (iseq ec other : Z) (w : vm) :
  other <> iseq ->
  let w_in := rb_vm_barrier (rb_vm_lock_enter w).2 in
  let result := rb_yjit_compile_iseq gen iseq ec w in
  vm_barriers w_in = vm_barriers w + 1 /\
  jit_func w_in = jit_func w /\
  jit_func result.2 !! other = jit_func (gen iseq ec w_in).2 !! other /\
  vm_barriers result.2 = vm_barriers (gen iseq ec w_in).2.
Proof.
  intros Hne w_in result. subst w_in result.
  split; [reflexivity|]. split; [reflexivity|].
  unfold rb_yjit_compile_iseq. cbn [rb_vm_lock_enter snd fst].
  destruct (gen iseq ec
    (rb_vm_barrier (mkVm (vm_lock_rec w + 1) (vm_barriers w) (jit_func w))))
    as [code_ptr w3].
  destruct (negb (code_ptr =? 0)); cbn [fst snd rb_vm_lock_leave set_jit_func
    vm_barriers jit_func]; (split; [apply lookup_insert_ne; congruence | reflexivity]).
Qed.

End IseqAccessProperties.

Lemma yjit_payload_set_once_then_read_back_witness :
  Yjit.rb_iseq_get_yjit_payload Yjit.sample_iseq = Yjit.Returned 0 /\
  Yjit.rb_iseq_get_yjit_payload
    (Yjit.mkIseq true true
       (Some (Yjit.mkIseqBody (Yjit.mkBody 4 [100; 777; 0; 60] true) 9000 0))) =
    Yjit.Returned 9000 /\
  (9000 <> 0 -> forall q,
     Yjit.rb_iseq_set_yjit_payload
       (Yjit.mkIseq true true
          (Some (Yjit.mkIseqBody (Yjit.mkBody 4 [100; 777; 0; 60] true) 9000 0))) q =
       Yjit.Aborted).
Proof.
  destruct (yjit_payload_set_once_then_read_back Yjit.sample_iseq 9000) as [_ Hset].
  destruct (Hset _ eq_refl) as (H1 & H2 & _ & _ & _ & _ & H3).
  split; [exact H1|]. split; [exact H2 | exact H3].
Defined.

Lemma opcode_at_pc_of_pc_at_idx_witness :
  (exists pc at_pc,
     Yjit.rb_iseq_pc_at_idx Yjit.sample_iseq 3 = Some (Yjit.Returned pc) /\
     [100; 777; 0; 60] !! Z.to_nat 3 = Some at_pc /\
     Yjit.rb_iseq_opcode_at_pc Yjit.sample_insns Yjit.sample_iseq pc =
       Some (Yjit.Returned (Yjit.rb_vm_insn_addr2opcode Yjit.sample_insns at_pc))) /\
  Yjit.rb_iseq_pc_at_idx Yjit.sample_iseq 4 = Some Yjit.Aborted.
Proof.
  split.
  - apply (opcode_at_pc_of_pc_at_idx Yjit.sample_insns Yjit.sample_iseq
             (Yjit.mkIseqBody (Yjit.mkBody 4 [100; 777; 0; 60] true) 0 0) 3);
      try reflexivity; cbn; lia.
  - apply (opcode_at_pc_of_pc_at_idx Yjit.sample_insns Yjit.sample_iseq
             (Yjit.mkIseqBody (Yjit.mkBody 4 [100; 777; 0; 60] true) 0 0) 4);
      try reflexivity; cbn; lia.
Defined.

Lemma detected_leaf_reads_as_dispatch_then_leave_witness :
  Yjit.rb_iseq_opcode_at_pc Yjit.sample_insns Yjit.sample_iseq 0 =
    Some (Yjit.Returned 100) /\
  Yjit.rb_iseq_opcode_at_pc Yjit.sample_insns Yjit.sample_iseq 3 =
    Some (Yjit.Returned 60).
Proof.
  destruct (detected_leaf_reads_as_dispatch_then_leave Yjit.sample_insns Yjit.sample_iseq
              (Yjit.mkIseqBody (Yjit.mkBody 4 [100; 777; 0; 60] true) 0 0))
    as (_ & _ & H0 & _ & H3); try reflexivity.
  split; [exact H0 | exact H3].
Defined.

Lemma ep_level_hops_add_witness :
  Yjit.rb_get_cfp_ep_level Yjit.sample_prev_ep (Yjit.mkCfp 0 0 0 0 1024) (2 + 3) =
    Yjit.rb_get_cfp_ep_level Yjit.sample_prev_ep
      (Yjit.mkCfp 0 0 0 0
         (Yjit.rb_get_cfp_ep_level Yjit.sample_prev_ep (Yjit.mkCfp 0 0 0 0 1024) 2)) 3.
Proof.
  apply (ep_level_hops_add Yjit.sample_prev_ep (Yjit.mkCfp 0 0 0 0 1024) 2 3); lia.
Defined.

Lemma compile_writes_only_its_own_entry_witness :
  Yjit.jit_func
    (Yjit.rb_yjit_compile_iseq Yjit.sample_generator 64 0
       (Yjit.mkVm 0 0 (<[65 := 7]> ∅))).2 !! 65 = Some 7 /\
  Yjit.vm_barriers
    (Yjit.rb_yjit_compile_iseq Yjit.sample_generator 64 0
       (Yjit.mkVm 0 0 (<[65 := 7]> ∅))).2 = 2.
Proof.
  destruct (compile_writes_only_its_own_entry Yjit.sample_generator 64 0 65
              (Yjit.mkVm 0 0 (<[65 := 7]> ∅)))
    as (_ & _ & Hother & Hbar); [lia|].
  split; [exact Hother | exact Hbar].
Defined.

(** ** yjit.c: heap walk, page by page *)

Section HeapWalkFurtherProperties.

Import Yjit.

Context {U : Type}.
Variable rb_obj_is_iseq : Z -> bool.
Variable callback : Z -> walk_state U -> walk_state U.

(** Without a wrap-around the loop is the sequence of the visits of the
    objects between [vstart] and [vend], whatever the callback does. *)
Lemma for_each_iseq_loop_is_walk_visits (n : nat) :
  forall (fuel : nat) (vstart stride : Z) (w : walk_state U),
    (n <= fuel)%nat -> 0 <= vstart -> 0 < stride ->
    vstart + Z.of_nat n * stride < 2 ^ 64 ->
    for_each_iseq_loop rb_obj_is_iseq callback fuel vstart
      (vstart + Z.of_nat n * stride) stride w =
      Some (walk_visits rb_obj_is_iseq callback (walk_objects vstart stride n) w).
Proof.
  induction n as [|n IH]; intros fuel vstart stride w Hfuel Hv Hs Hend.
  - replace (vstart + Z.of_nat 0 * stride) with vstart by lia.
    destruct fuel; cbn [for_each_iseq_loop]; rewrite Z.eqb_refl; reflexivity.
  - destruct fuel as [|fuel]; [lia|].
    cbn [for_each_iseq_loop].
    replace (vstart =? vstart + Z.of_nat (S n) * stride) with false
      by (symmetry; apply Z.eqb_neq; nia).
    rewrite walk_objects_cons. cbn [walk_visits].
    destruct (for_each_iseq_visit rb_obj_is_iseq callback vstart w) as [called w1].
    assert (Hwrap : wrap64 (vstart + stride) = vstart + stride)
      by (unfold wrap64, SIZE_MAX_plus_1; apply Z.mod_small; nia).
    rewrite Hwrap.
    replace (vstart + Z.of_nat (S n) * stride)
      with (vstart + stride + Z.of_nat n * stride) by lia.
    rewrite IH by (try assumption; lia || nia).
    destruct (walk_visits rb_obj_is_iseq callback (walk_objects (vstart + stride) stride n) w1).
    reflexivity.
Qed.

Lemma walk_objects_app (n m : nat) :
  forall (vstart stride : Z),
    walk_objects vstart stride (n + m) =
      walk_objects vstart stride n ++ walk_objects (vstart + Z.of_nat n * stride) stride m.
Proof.
  induction n as [|n IH]; intros vstart stride.
  - cbn [Nat.add]. replace (vstart + Z.of_nat 0 * stride) with vstart by lia.
    reflexivity.
  - cbn [Nat.add]. rewrite !walk_objects_cons, IH. cbn [app].
    replace (vstart + stride + Z.of_nat n * stride)
      with (vstart + Z.of_nat (S n) * stride) by lia.
    reflexivity.
Qed.

Lemma walk_visits_app (objs1 objs2 : list Z) :
  forall w : walk_state U,
    walk_visits rb_obj_is_iseq callback (objs1 ++ objs2) w =
      ((walk_visits rb_obj_is_iseq callback objs1 w).1 ++
       (walk_visits rb_obj_is_iseq callback objs2
          (walk_visits rb_obj_is_iseq callback objs1 w).2).1,
       (walk_visits rb_obj_is_iseq callback objs2
          (walk_visits rb_obj_is_iseq callback objs1 w).2).2).
Proof.
  induction objs1 as [|v objs1 IH]; intros w.
  - cbn [app walk_visits fst snd].
    destruct (walk_visits rb_obj_is_iseq callback objs2 w). reflexivity.
  - cbn [app walk_visits].
    destruct (for_each_iseq_visit rb_obj_is_iseq callback v w) as [called w1].
    rewrite IH.
    destruct (walk_visits rb_obj_is_iseq callback objs1 w1) as [calls1 w2].
    cbn [fst snd].
    destruct (walk_visits rb_obj_is_iseq callback objs2 w2) as [calls2 w3].
    cbn [fst snd]. rewrite app_assoc. reflexivity.
Qed.

(** X20. Walking a range in two pieces, the second from where the first
    ended and on the state it left, invokes the callback on the same
    objects in the same order and ends in the same state as walking the
    range in one piece, for every callback. *)
Theorem heap_walk_in_two_pieces (n m fuel : nat) (vstart stride : Z) (w : walk_state U) :
  (n + m <= fuel)%nat -> 0 <= vstart -> 0 < stride ->
  vstart + Z.of_nat (n + m) * stride < 2 ^ 64 ->
  exists calls1 w1 calls2 w2,
    for_each_iseq_i rb_obj_is_iseq callback fuel vstart
      (vstart + Z.of_nat n * stride) stride w = Some (0, calls1, w1) /\
    for_each_iseq_i rb_obj_is_iseq callback fuel (vstart + Z.of_nat n * stride)
      (vstart + Z.of_nat (n + m) * stride) stride w1 = Some (0, calls2, w2) /\
    for_each_iseq_i rb_obj_is_iseq callback fuel vstart
      (vstart + Z.of_nat (n + m) * stride) stride w = Some (0, calls1 ++ calls2, w2).
Proof.
  intros Hfuel Hv Hs Hend. unfold for_each_iseq_i.
  pose proof (for_each_iseq_loop_is_walk_visits n fuel vstart stride w
                ltac:(lia) Hv Hs ltac:(nia)) as H1.
  pose proof (for_each_iseq_loop_is_walk_visits (n + m) fuel vstart stride w
                Hfuel Hv Hs Hend) as H3.
  rewrite walk_objects_app, walk_visits_app in H3.
  destruct (walk_visits rb_obj_is_iseq callback (walk_objects vstart stride n) w)
    as [calls1 w1].
  pose proof (for_each_iseq_loop_is_walk_visits m fuel (vstart + Z.of_nat n * stride)
                stride w1 ltac:(lia) ltac:(nia) Hs ltac:(nia)) as H2.
  replace (vstart + Z.of_nat n * stride + Z.of_nat m * stride)
    with (vstart + Z.of_nat (n + m) * stride) in H2 by lia.
  cbn [fst snd] in H3.
  destruct (walk_visits rb_obj_is_iseq callback
              (walk_objects (vstart + Z.of_nat n * stride) stride m) w1) as [calls2 w2].
  cbn [fst snd] in H3.
  exists calls1, w1, calls2, w2. rewrite H1, H2, H3. repeat split.
Qed.

Lemma for_each_iseq_visit_not_iseq (v : Z) (w : walk_state U) :
  rb_obj_is_iseq v = false ->
  for_each_iseq_visit rb_obj_is_iseq callback v w = ([], w).
Proof.
  intros Hv. unfold for_each_iseq_visit, asan_poisoned_object_p, asan_poison_object_if,
    asan_unpoison_object. rewrite Hv. destruct w as [poisoned data].
  cbn [asan_poisoned cb_data]. f_equal.
  case_bool_decide as Hin; f_equal.
  - apply poison_restore_member, Hin.
  - apply poison_restore_absent, Hin.
Qed.

(** X21. A walk over a range that holds no iseq invokes no callback and
    leaves the state exactly as it was, the poisoning of every object
    included. *)
Theorem heap_walk_without_iseqs_changes_nothing
    (n fuel : nat) (vstart stride : Z) (w : walk_state U) :
  (n <= fuel)%nat -> 0 <= vstart -> 0 < stride ->
  vstart + Z.of_nat n * stride < 2 ^ 64 ->
  (forall v, v ∈ walk_objects vstart stride n -> rb_obj_is_iseq v = false) ->
  for_each_iseq_i rb_obj_is_iseq callback fuel vstart
    (vstart + Z.of_nat n * stride) stride w = Some (0, [], w).
Proof.
  intros Hfuel Hv Hs Hend Hnone. unfold for_each_iseq_i.
  rewrite (for_each_iseq_loop_is_walk_visits n) by assumption.
  assert (Hwalk : forall objs, (forall v, v ∈ objs -> rb_obj_is_iseq v = false) ->
                    walk_visits rb_obj_is_iseq callback objs w = ([], w)).
  { induction objs as [|v objs IH]; intros Hobjs; [reflexivity|].
    cbn [walk_visits]. rewrite for_each_iseq_visit_not_iseq
      by (apply Hobjs, elem_of_cons; left; reflexivity).
    rewrite IH by (intros v' Hv'; apply Hobjs, elem_of_cons; right; exact Hv').
    reflexivity. }
  rewrite Hwalk by exact Hnone. reflexivity.
Qed.

End HeapWalkFurtherProperties.

(** Two objects, then three, from address 1000. *)
Lemma heap_walk_in_two_pieces_witness :
  exists calls1 w1 calls2 w2,
    Yjit.for_each_iseq_i (fun v => v mod 80 =? 0) Yjit.sample_callback 10 1000
      (1000 + Z.of_nat 2 * 40) 40 (Yjit.mkWalk {[1040; 1080]} []) = Some (0, calls1, w1) /\
    Yjit.for_each_iseq_i (fun v => v mod 80 =? 0) Yjit.sample_callback 10
      (1000 + Z.of_nat 2 * 40) (1000 + Z.of_nat (2 + 3) * 40) 40 w1 = Some (0, calls2, w2) /\
    Yjit.for_each_iseq_i (fun v => v mod 80 =? 0) Yjit.sample_callback 10 1000
      (1000 + Z.of_nat (2 + 3) * 40) 40 (Yjit.mkWalk {[1040; 1080]} []) =
      Some (0, calls1 ++ calls2, w2).
Proof.
  apply (heap_walk_in_two_pieces (fun v => v mod 80 =? 0) Yjit.sample_callback
           2 3 10 1000 40 (Yjit.mkWalk {[1040; 1080]} [])); lia.
Defined.

(** Three objects from address 1000, none at a multiple of 4000. *)
Lemma heap_walk_without_iseqs_changes_nothing_witness :
  Yjit.for_each_iseq_i (fun v => v mod 4000 =? 0) Yjit.sample_callback 10 1000
    (1000 + Z.of_nat 3 * 40) 40 (Yjit.mkWalk {[1040; 1080]} []) =
    Some (0, [], Yjit.mkWalk {[1040; 1080]} []).
Proof.
  apply (heap_walk_without_iseqs_changes_nothing (fun v => v mod 4000 =? 0)
           Yjit.sample_callback 3 10 1000 40 (Yjit.mkWalk {[1040; 1080]} []));
    try lia.
  intros v Hv. vm_compute in Hv.
  repeat (apply elem_of_cons in Hv as [-> | Hv]; [reflexivity|]).
  inversion Hv.
Defined.

(** ** yjit.c: profiling export, array contents *)

Section ExportFurtherProperties.

Import Yjit.

Variable P : profile_frames.

Ltac bind_inv H :=
  unfold mbind, res_bind in H;
  repeat match type of H with
  | match ?m with Done _ => _ | Fault _ => _ end = Done _ =>
      let E := fresh "E" in destruct m eqn:E; [|discriminate H]
  end.

Lemma array_get_Done (a : list Z) (i x : Z) :
  array_get a i = Done x -> 0 <= i < Z.of_nat (length a) /\ a !! Z.to_nat i = Some x.
Proof.
  unfold array_get, of_option.
  destruct ((0 <=? i) && (i <? INT_MAX)) eqn:E; [|discriminate].
  destruct (a !! Z.to_nat i) as [y|] eqn:Ey; [|discriminate].
  intros [= <-]. zbool. apply lookup_lt_Some in Ey as Hlt. split; [lia | reflexivity].
Qed.

Lemma to_int_of_int (l : Z) : is_int l -> to_int l = l.
Proof. unfold is_int, to_int. intros Hl. rewrite Z.mod_small; lia. Qed.

Lemma SIZET2NUM_of_value (x : Z) : is_value x -> SIZET2NUM x = x.
Proof. unfold is_value, SIZET2NUM, wrap64, SIZE_MAX_plus_1. apply Z.mod_small. Qed.

(** One more entry of an array copied. *)
Lemma take_push (a : list Z) (i x : Z) :
  0 <= i -> a !! Z.to_nat i = Some x ->
  rb_ary_push (take (Z.to_nat i) a) x = take (Z.to_nat (i + 1)) a.
Proof.
  intros Hi Hx. unfold rb_ary_push.
  replace (Z.to_nat (i + 1)) with (S (Z.to_nat i)) by lia.
  symmetry. apply take_S_r. exact Hx.
Qed.

Section Copies.

Variables yraw ylines : list Z.
Hypothesis yraw_values : Forall is_value yraw.
Hypothesis ylines_ints : Forall is_int ylines.

Lemma push_pair_copies (st st' : export_state) :
  push_pair yraw ylines st = Done st' ->
  copied_so_far yraw ylines st -> copied_so_far yraw ylines st'.
Proof.
  unfold push_pair. intros H [Hraw Hlines]. bind_inv H. injection H as <-.
  apply array_get_Done in E as [Hi Hr]. apply array_get_Done in E0 as [_ Hl].
  unfold copied_so_far. cbn [idx raw_samples line_samples]. unfold INT2NUM.
  rewrite Hraw, Hlines.
  rewrite (SIZET2NUM_of_value a) by (eapply Forall_lookup_1; eassumption).
  split; apply take_push; (lia || assumption).
Qed.

Lemma add_frames_loop_copies (turns : nat) :
  forall st st',
    add_frames_loop P turns yraw ylines st = Done st' ->
    copied_so_far yraw ylines st -> copied_so_far yraw ylines st'.
Proof.
  induction turns as [|turns IH]; intros st st' H Hcopied.
  - injection H as <-. exact Hcopied.
  - cbn [add_frames_loop] in H. bind_inv H. apply IH in H; [exact H|].
    destruct Hcopied as [Hraw Hlines].
    apply array_get_Done in E as [Hi Hr]. apply array_get_Done in E0 as [_ Hl].
    unfold copied_so_far. cbn [idx raw_samples line_samples]. unfold INT2NUM.
    rewrite Hraw, Hlines.
    rewrite (SIZET2NUM_of_value a) by (eapply Forall_lookup_1; eassumption).
    split; apply take_push; (lia || assumption).
Qed.

Lemma export_sample_copies (st st' : export_state) (v : Z) :
  export_sample P yraw ylines st = Done st' ->
  yraw !! Z.to_nat (idx st) = Some v -> 0 <= v < 2 ^ 31 ->
  copied_so_far yraw ylines st -> copied_so_far yraw ylines st'.
Proof.
  unfold export_sample. intros H Hv Hsmall [Hraw Hlines]. bind_inv H.
  apply array_get_Done in E as [Hi Hr]. apply array_get_Done in E0 as [_ Hl].
  assert (a = v) by congruence. subst a.
  apply add_frames_loop_copies in E1.
  - apply push_pair_copies in E2; [|exact E1]. apply push_pair_copies in H; assumption.
  - unfold copied_so_far. cbn [idx raw_samples line_samples]. unfold INT2NUM.
    rewrite Hraw, Hlines, (to_int_small v) by lia.
    rewrite (to_int_of_int a0) by (eapply Forall_lookup_1; eassumption).
    rewrite (SIZET2NUM_of_value v) by (unfold is_value; lia).
    split; apply take_push; (lia || assumption).
Qed.

End Copies.

Lemma encode_samples_cons (s : stack_sample) (ss : list stack_sample) :
  encode_samples (s :: ss) = encode_sample s ++ encode_samples ss.
Proof. reflexivity. Qed.

Lemma encode_samples_length (ss : list stack_sample) :
  (3 * length ss <= length (encode_samples ss))%nat.
Proof.
  induction ss as [|s ss IH]; [cbn; lia|].
  rewrite encode_samples_cons, length_app, encode_sample_length. cbn [length]. lia.
Qed.

(** The loop works through the records that start at [idx], one turn
    each, and goes on from the entry after them. *)
Lemma export_loop_prefix (yraw ylines : list Z) (samples_len : Z) (ss : list stack_sample) :
  forall (pre post : list Z) (fuel : nat) (st : export_state),
    yraw = pre ++ encode_samples ss ++ post ->
    idx st = Z.of_nat (length pre) ->
    (length yraw <= length ylines)%nat ->
    Z.of_nat (length yraw) <= INT_MAX ->
    Z.of_nat (length pre + length (encode_samples ss)) <= samples_len ->
    (length ss <= fuel)%nat ->
    exists st',
      export_loop P fuel yraw ylines samples_len st =
        export_loop P (fuel - length ss) yraw ylines samples_len st' /\
      idx st' = Z.of_nat (length pre + length (encode_samples ss)) /\
      frames st' = foldl (rb_yjit_add_frame P) (frames st) (observed_frames ss) /\
      (Forall is_value yraw -> Forall is_int ylines ->
       copied_so_far yraw ylines st -> copied_so_far yraw ylines st').
Proof.
  induction ss as [|s ss IH]; intros pre post fuel st Hraw Hidx Hl Hmax Hlen Hfuel.
  - exists st. cbn [length]. rewrite Nat.sub_0_r.
    split; [reflexivity|]. split; [rewrite Hidx; cbn; f_equal; lia|].
    split; [reflexivity | auto].
  - rewrite encode_samples_cons in Hraw, Hlen. rewrite <- app_assoc in Hraw.
    rewrite length_app, encode_sample_length in Hlen.
    cbn [length] in Hfuel. destruct fuel as [|fuel]; [lia|].
    cbn [export_loop].
    replace (idx st <? samples_len) with true by (zbool_true; lia).
    destruct (export_sample_encoded P s pre (encode_samples ss ++ post) yraw ylines st
                Hraw Hidx Hl Hmax) as (st1 & Hs & Hidx1 & Hframes1).
    rewrite Hs. cbn [mbind res_bind].
    destruct (IH (pre ++ encode_sample s) post fuel st1) as (st' & Hloop & Hidx' & Hframes' & Hcopy).
    + rewrite Hraw, <- app_assoc. reflexivity.
    + rewrite Hidx1, Hidx, length_app. lia.
    + exact Hl.
    + exact Hmax.
    + rewrite length_app, encode_sample_length. lia.
    + lia.
    + exists st'. cbn [length Nat.sub]. split; [exact Hloop|].
      split; [rewrite Hidx', encode_samples_cons, !length_app; lia|].
      split.
      * rewrite Hframes', Hframes1. unfold observed_frames. cbn [map concat].
        rewrite foldl_app. reflexivity.
      * intros Hvalues Hints Hcopied. apply Hcopy; [assumption | assumption |].
        apply (export_sample_copies yraw ylines Hvalues Hints st st1
                 (Z.of_nat (length (sample_stack s)))); [exact Hs | | | exact Hcopied].
        -- rewrite Hidx, Nat2Z.id, Hraw. unfold encode_sample.
           apply list_lookup_middle. reflexivity.
        -- assert (length yraw = (length pre + (length (sample_stack s) + 3) +
                                  length (encode_samples ss ++ post))%nat)
             by (rewrite Hraw, !length_app, encode_sample_length; lia).
           unfold INT_MAX in Hmax. lia.
Qed.

Lemma export_loop_done (yraw ylines : list Z) (samples_len : Z) (fuel : nat)
    (st : export_state) :
  samples_len <= idx st -> export_loop P fuel yraw ylines samples_len st = Done st.
Proof.
  intros Hdone. destruct fuel; cbn [export_loop];
    replace (idx st <? samples_len) with false by (symmetry; apply Z.ltb_ge; lia);
    reflexivity.
Qed.

(** X15. On a recorded sequence whose entries are [VALUE]s, with line
    numbers that are [int]s, the export is a verbatim copy: the array under
    [:raw] is the raw input, the array under [:lines] is the line input up
    to the same length, and the frames hash is built from the observed
    frames in order. *)
Theorem exit_locations_copies_input_arrays (ss : list stack_sample) (ylines : list Z) :
  Forall is_value (encode_samples ss) ->
  Forall is_int ylines ->
  (length (encode_samples ss) <= length ylines)%nat ->
  Z.of_nat (length (encode_samples ss)) <= INT_MAX ->
  rb_yjit_exit_locations_dict P (encode_samples ss) ylines
    (Z.of_nat (length (encode_samples ss))) =
    Done (mkExit (encode_samples ss)
            (take (length (encode_samples ss)) ylines)
            (foldl (rb_yjit_add_frame P) ∅ (observed_frames ss))).
Proof.
  intros Hvalues Hints Hl Hmax. rewrite exit_locations_dict_nonneg by lia.
  pose proof (encode_samples_length ss) as Hss.
  destruct (export_loop_prefix (encode_samples ss) ylines
              (Z.of_nat (length (encode_samples ss))) ss [] []
              (Z.to_nat (Z.of_nat (length (encode_samples ss)))) (mkExport 0 [] [] ∅))
    as (st' & Hloop & Hidx & Hframes & Hcopy);
    [rewrite app_nil_r; reflexivity | reflexivity | exact Hl | exact Hmax
     | cbn [length]; lia | lia |].
  rewrite Hloop, export_loop_done by (rewrite Hidx; cbn [length]; lia).
  cbn [mbind res_bind]. f_equal.
  destruct (Hcopy Hvalues Hints) as [Hraw Hlines]; [split; reflexivity|].
  rewrite Hraw, Hlines, Hidx, Hframes. cbn [length Nat.add frames]. rewrite Nat2Z.id.
  rewrite take_ge by lia. reflexivity.
Qed.

(** X16. Without samples the export reads neither input array, whatever
    they hold: with a sample count of zero it returns empty arrays and an
    empty frames hash, and with a negative count it does not return, the
    allocation of the result arrays raising ArgumentError. *)
Theorem exit_locations_of_zero_or_negative_count
    (yraw ylines : list Z) (samples_len : Z) :
  samples_len <= 0 ->
  rb_yjit_exit_locations_dict P yraw ylines samples_len =
    if samples_len =? 0 then Done (mkExit [] [] ∅) else Fault ArgumentError.
Proof.
  intros Hlen. destruct (samples_len =? 0) eqn:E; zbool.
  - rewrite exit_locations_dict_nonneg by lia.
    rewrite export_loop_done by (cbn [idx]; lia). reflexivity.
  - apply exit_locations_dict_negative. lia.
Qed.

Lemma push_pair_reads (yraw ylines : list Z) (st st' : export_state) :
  push_pair yraw ylines st = Done st' -> idx st < Z.of_nat (length yraw).
Proof.
  unfold push_pair. intros H. bind_inv H. apply array_get_Done in E as [Hi _]. lia.
Qed.

(** A turn of the loop that returns has read a whole record inside the
    raw array. *)
Lemma export_sample_extent (yraw ylines : list Z) (st st' : export_state) :
  export_sample P yraw ylines st = Done st' ->
  exists v,
    yraw !! Z.to_nat (idx st) = Some v /\
    idx st' = idx st + 3 + Z.of_nat (Z.to_nat (to_int v)) /\
    idx st' <= Z.of_nat (length yraw).
Proof.
  unfold export_sample. intros H. bind_inv H.
  apply array_get_Done in E as [Hi Hv]. exists a. split; [exact Hv|].
  apply add_frames_loop_inv in E1 as (Hidx1 & _ & _). cbn [idx] in Hidx1.
  apply push_pair_inv in E2 as (Hidx2 & _).
  pose proof (push_pair_reads _ _ _ _ H) as Hread.
  apply push_pair_inv in H as (Hidx3 & _). lia.
Qed.

(** X17. The loop checks [samples_len] only between records: when the
    input stops inside a record (after at least its count and before its
    last entry), the export reads past the end of its arrays. *)
Theorem exit_locations_cut_record_reads_out_of_bounds
    (ss : list stack_sample) (s : stack_sample) (k : nat) (ylines : list Z) :
  (0 < k < length (encode_sample s))%nat ->
  Z.of_nat (length (sample_stack s)) < 2 ^ 31 ->
  (length (encode_samples ss ++ take k (encode_sample s)) <= length ylines)%nat ->
  Z.of_nat (length (encode_samples ss ++ take k (encode_sample s))) <= INT_MAX ->
  rb_yjit_exit_locations_dict P (encode_samples ss ++ take k (encode_sample s)) ylines
    (Z.of_nat (length (encode_samples ss ++ take k (encode_sample s)))) =
    Fault OutOfBounds.
Proof.
  intros Hk Hsmall Hl Hmax.
  set (yraw := encode_samples ss ++ take k (encode_sample s)) in *.
  assert (Hlen : length yraw = (length (encode_samples ss) + k)%nat)
    by (unfold yraw; rewrite length_app, length_take; lia).
  pose proof (encode_samples_length ss) as Hss.
  rewrite exit_locations_dict_nonneg by lia.
  destruct (export_loop_prefix yraw ylines (Z.of_nat (length yraw)) ss []
              (take k (encode_sample s)) (Z.to_nat (Z.of_nat (length yraw)))
              (mkExport 0 [] [] ∅))
    as (st' & Hloop & Hidx & _);
    [reflexivity | reflexivity | exact Hl | exact Hmax | cbn [length]; lia | lia |].
  rewrite Hloop. cbn [length Nat.add] in Hidx.
  destruct (Z.to_nat (Z.of_nat (length yraw)) - length ss)%nat as [|fuel] eqn:Efuel; [lia|].
  cbn [export_loop].
  replace (idx st' <? Z.of_nat (length yraw)) with true by (zbool_true; lia).
  destruct (export_sample P yraw ylines st') as [st''|e] eqn:Es.
  - exfalso. apply export_sample_extent in Es as (v & Hv & Hext & Hbound).
    assert (Hcount : yraw !! Z.to_nat (idx st') =
                     Some (Z.of_nat (length (sample_stack s)))).
    { rewrite Hidx, Nat2Z.id. unfold yraw.
      rewrite lookup_app_r by lia. rewrite Nat.sub_diag.
      destruct k as [|k]; [lia|]. reflexivity. }
    assert (v = Z.of_nat (length (sample_stack s))) by congruence. subst v.
    rewrite to_int_small, Nat2Z.id in Hext by lia.
    rewrite encode_sample_length in Hk. lia.
  - apply export_sample_fault in Es as ->. reflexivity.
Qed.

Lemma PTR2NUM_inj (f g : Z) : is_value f -> is_value g -> PTR2NUM f = PTR2NUM g -> f = g.
Proof.
  unfold is_value, PTR2NUM, to_intptr. intros Hf Hg Heq.
  pose proof (Z.div_mod (f + 2 ^ 63) (2 ^ 64) ltac:(lia)) as Hdf.
  pose proof (Z.div_mod (g + 2 ^ 63) (2 ^ 64) ltac:(lia)) as Hdg.
  pose proof (Z.mod_pos_bound (f + 2 ^ 63) (2 ^ 64) ltac:(lia)) as Hbf.
  pose proof (Z.mod_pos_bound (g + 2 ^ 63) (2 ^ 64) ltac:(lia)) as Hbg.
  lia.
Qed.

Lemma add_frames_keep (stack : list Z) :
  forall (hash : gmap Z frame_info) (id : Z) (fi : frame_info),
    hash !! id = Some fi -> foldl (rb_yjit_add_frame P) hash stack !! id = Some fi.
Proof.
  induction stack as [|f stack IH]; intros hash id fi Hfi; [exact Hfi|].
  cbn [foldl]. apply IH.
  destruct (hash !! PTR2NUM f) as [fi'|] eqn:E.
  - rewrite (add_frame_present P _ _ _ E). exact Hfi.
  - rewrite (add_frame_absent P _ _ E), lookup_insert_ne by congruence. exact Hfi.
Qed.

Lemma add_frames_lookup (stack : list Z) :
  forall (hash : gmap Z frame_info) (f : Z),
    Forall is_value stack -> f ∈ stack -> hash !! PTR2NUM f = None ->
    foldl (rb_yjit_add_frame P) hash stack !! PTR2NUM f = Some (new_frame_info P f).
Proof.
  induction stack as [|g stack IH]; intros hash f Hvalues Hin Hnone; [inversion Hin|].
  apply Forall_cons in Hvalues as [Hg Hvalues]. cbn [foldl].
  destruct (decide (PTR2NUM g = PTR2NUM f)) as [Heq|Hne].
  - assert (g = f).
    { apply elem_of_cons in Hin as [->|Hin]; [reflexivity|].
      apply PTR2NUM_inj; [exact Hg | | exact Heq].
      eapply Forall_forall in Hvalues; [exact Hvalues | exact Hin]. }
    subst g. apply add_frames_keep.
    rewrite (add_frame_absent P _ _ Hnone). apply lookup_insert_eq.
  - apply IH; [exact Hvalues | |].
    + apply elem_of_cons in Hin as [->|Hin]; [contradiction | exact Hin].
    + destruct (hash !! PTR2NUM g) as [fi'|] eqn:E.
      * rewrite (add_frame_present P _ _ _ E). exact Hnone.
      * rewrite (add_frame_absent P _ _ E), lookup_insert_ne by exact Hne. exact Hnone.
Qed.

Lemma remove_dups_PTR2NUM_length (l : list Z) :
  Forall is_value l -> length (remove_dups (PTR2NUM <$> l)) = length (remove_dups l).
Proof.
  induction l as [|x l IH]; intros Hvalues; [reflexivity|].
  apply Forall_cons in Hvalues as [Hx Hvalues].
  cbn [fmap list_fmap remove_dups].
  assert (Hiff : PTR2NUM x ∈ PTR2NUM <$> l <-> x ∈ l).
  { split; [|apply list_elem_of_fmap_2].
    intros Hin. apply list_elem_of_fmap in Hin as (y & Heq & Hy).
    assert (x = y); [|congruence].
    apply PTR2NUM_inj; [exact Hx | | exact Heq].
    eapply Forall_forall in Hvalues; [exact Hvalues | exact Hy]. }
  destruct (decide_rel elem_of (PTR2NUM x) (PTR2NUM <$> l)) as [H1|H1];
    destruct (decide_rel elem_of x l) as [H2|H2]; cbn [length]; try tauto;
    rewrite IH by exact Hvalues; reflexivity.
Qed.

(** X18. On a recorded sequence whose frames are [VALUE]s, every observed
    frame is found in the frames hash under its identity, with the record
    of that very frame; distinct frames have distinct identities, and the
    hash has as many records as there are distinct observed frames. *)
Theorem exit_locations_one_record_per_distinct_frame
    (ss : list stack_sample) (ylines : list Z) :
  Forall is_value (observed_frames ss) ->
  (length (encode_samples ss) <= length ylines)%nat ->
  Z.of_nat (length (encode_samples ss)) <= INT_MAX ->
  exists r,
    rb_yjit_exit_locations_dict P (encode_samples ss) ylines
      (Z.of_nat (length (encode_samples ss))) = Done r /\
    (forall f, f ∈ observed_frames ss ->
               res_frames r !! PTR2NUM f = Some (new_frame_info P f)) /\
    (forall f g, f ∈ observed_frames ss -> g ∈ observed_frames ss ->
                 PTR2NUM f = PTR2NUM g -> f = g) /\
    size (res_frames r) = length (remove_dups (observed_frames ss)).
Proof.
  intros Hvalues Hl Hmax.
  destruct (exit_locations_dict_encoded P ss ylines Hl Hmax) as (r & Hr & Hframes & _).
  exists r. split; [exact Hr|]. rewrite Hframes. split; [|split].
  - intros f Hf. apply add_frames_lookup; [exact Hvalues | exact Hf | apply lookup_empty].
  - intros f g Hf Hg. apply PTR2NUM_inj.
    + eapply Forall_forall in Hvalues; [exact Hvalues | exact Hf].
    + eapply Forall_forall in Hvalues; [exact Hvalues | exact Hg].
  - rewrite <- size_dom, add_frames_dom, dom_empty_L, (left_id_L ∅ (∪)).
    rewrite <- remove_dups_PTR2NUM_length by exact Hvalues.
    rewrite <- (size_list_to_set (C := gset Z)) by apply NoDup_remove_dups.
    f_equal. apply set_eq. intros x.
    rewrite !elem_of_list_to_set, elem_of_remove_dups. reflexivity.
Qed.

(** X19. The record that [rb_yjit_add_frame] stores for a frame without one
    has the full label as its name; as its file the absolute path, or the
    plain path when the absolute one is nil; empty edge and line hashes; and
    a line entry exactly when the first line number is not the Fixnum 0.
    No other entry of the hash changes. *)
Theorem add_frame_record_fields (hash : gmap Z frame_info) (frame : Z) :
  hash !! PTR2NUM frame = None ->
  exists fi,
    rb_yjit_add_frame P hash frame !! PTR2NUM frame = Some fi /\
    fi !! "name" = Some (rb_profile_frame_full_label P frame) /\
    fi !! "file" =
      Some (match rb_profile_frame_absolute_path P frame with
            | RNil => rb_profile_frame_path P frame
            | file => file
            end) /\
    fi !! "edges" = Some (RHash []) /\
    fi !! "lines" = Some (RHash []) /\
    fi !! "line" =
      match rb_profile_frame_first_lineno P frame with
      | RInt 0 => None
      | line => Some line
      end /\
    (forall id, id <> PTR2NUM frame -> rb_yjit_add_frame P hash frame !! id = hash !! id).
Proof.
  intros Hnone. exists (new_frame_info P frame).
  rewrite (add_frame_absent P _ _ Hnone).
  split; [apply lookup_insert_eq|].
  assert (Hfields :
    new_frame_info P frame !! "name" = Some (rb_profile_frame_full_label P frame) /\
    new_frame_info P frame !! "file" =
      Some (match rb_profile_frame_absolute_path P frame with
            | RNil => rb_profile_frame_path P frame
            | file => file
            end) /\
    new_frame_info P frame !! "edges" = Some (RHash []) /\
    new_frame_info P frame !! "lines" = Some (RHash []) /\
    new_frame_info P frame !! "line" =
      match rb_profile_frame_first_lineno P frame with
      | RInt 0 => None
      | line => Some line
      end).
  { unfold new_frame_info, rb_hash_new. cbv zeta.
    destruct (rb_profile_frame_first_lineno P frame) as [|[|z|z]|str|kvs];
      destruct (rb_profile_frame_absolute_path P frame) as [|z'|str'|kvs'];
      cbv beta iota;
      repeat split;
      repeat (rewrite lookup_insert_ne by discriminate);
      first [apply lookup_insert_eq | apply lookup_empty]. }
  destruct Hfields as (H1 & H2 & H3 & H4 & H5).
  repeat (split; [assumption|]).
  intros id Hid. apply lookup_insert_ne. congruence.
Qed.

End ExportFurtherProperties.

Lemma sample_stacks_encoded :
  Yjit.encode_samples Yjit.sample_stacks = [3; 7; 9; 7; 55; 1; 0; 3; 1; 2; 9; 11; 4; 2].
Proof. reflexivity. Qed.

Ltac forall_in_range :=
  repeat first
    [ apply List.Forall_nil
    | apply List.Forall_cons; [unfold Yjit.is_value, Yjit.is_int; lia|] ].

Lemma exit_locations_copies_input_arrays_witness :
  Yjit.rb_yjit_exit_locations_dict Yjit.sample_profile
    (Yjit.encode_samples Yjit.sample_stacks) Yjit.sample_lines
    (Z.of_nat (length (Yjit.encode_samples Yjit.sample_stacks))) =
    Yjit.Done (Yjit.mkExit (Yjit.encode_samples Yjit.sample_stacks)
                 (take (length (Yjit.encode_samples Yjit.sample_stacks)) Yjit.sample_lines)
                 (foldl (Yjit.rb_yjit_add_frame Yjit.sample_profile) ∅
                    (Yjit.observed_frames Yjit.sample_stacks))).
Proof.
  apply (exit_locations_copies_input_arrays Yjit.sample_profile Yjit.sample_stacks
           Yjit.sample_lines).
  - rewrite sample_stacks_encoded. forall_in_range.
  - unfold Yjit.sample_lines. forall_in_range.
  - vm_compute. lia.
  - vm_compute. discriminate.
Defined.

Lemma exit_locations_of_zero_or_negative_count_witness :
  Yjit.rb_yjit_exit_locations_dict Yjit.sample_profile [3; 7] [] 0 =
    Yjit.Done (Yjit.mkExit [] [] ∅) /\
  Yjit.rb_yjit_exit_locations_dict Yjit.sample_profile [3; 7] [] (-1) =
    Yjit.Fault Yjit.ArgumentError.
Proof.
  split.
  - apply (exit_locations_of_zero_or_negative_count Yjit.sample_profile [3; 7] [] 0). lia.
  - apply (exit_locations_of_zero_or_negative_count Yjit.sample_profile [3; 7] [] (-1)). lia.
Defined.

(** After the three recorded samples, a record of two frames of which only
    the count and the first frame are there. *)
Lemma exit_locations_cut_record_reads_out_of_bounds_witness :
  Yjit.rb_yjit_exit_locations_dict Yjit.sample_profile
    (Yjit.encode_samples Yjit.sample_stacks ++
       take 2 (Yjit.encode_sample (Yjit.mkSample [7; 9] 1 2)))
    (Yjit.sample_lines ++ [0; 0])
    (Z.of_nat (length (Yjit.encode_samples Yjit.sample_stacks ++
                         take 2 (Yjit.encode_sample (Yjit.mkSample [7; 9] 1 2))))) =
    Yjit.Fault Yjit.OutOfBounds.
Proof.
  apply (exit_locations_cut_record_reads_out_of_bounds Yjit.sample_profile
           Yjit.sample_stacks (Yjit.mkSample [7; 9] 1 2) 2 (Yjit.sample_lines ++ [0; 0])).
  - vm_compute. lia.
  - vm_compute. reflexivity.
  - vm_compute. lia.
  - vm_compute. discriminate.
Defined.

Lemma exit_locations_one_record_per_distinct_frame_witness :
  exists r,
    Yjit.rb_yjit_exit_locations_dict Yjit.sample_profile
      (Yjit.encode_samples Yjit.sample_stacks) Yjit.sample_lines
      (Z.of_nat (length (Yjit.encode_samples Yjit.sample_stacks))) = Yjit.Done r /\
    (forall f, f ∈ Yjit.observed_frames Yjit.sample_stacks ->
               Yjit.res_frames r !! Yjit.PTR2NUM f =
                 Some (Yjit.new_frame_info Yjit.sample_profile f)) /\
    size (Yjit.res_frames r) = length (remove_dups (Yjit.observed_frames Yjit.sample_stacks)).
Proof.
  destruct (exit_locations_one_record_per_distinct_frame Yjit.sample_profile
              Yjit.sample_stacks Yjit.sample_lines) as (r & Hr & Hlookup & _ & Hsize).
  - change (Yjit.observed_frames Yjit.sample_stacks) with [7; 9; 7; 9; 11].
    forall_in_range.
  - vm_compute. lia.
  - vm_compute. discriminate.
  - exists r. split; [exact Hr|]. split; [exact Hlookup | exact Hsize].
Defined.

(** The frame 8, whose first line number is the Fixnum 0, in an empty
    hash. *)
Lemma add_frame_record_fields_witness :
  exists fi,
    Yjit.rb_yjit_add_frame Yjit.sample_profile ∅ 8 !! Yjit.PTR2NUM 8 = Some fi /\
    fi !! "name" = Some (Yjit.RStr "m") /\
    fi !! "file" = Some (Yjit.RStr "a.rb") /\
    fi !! "line" = None.
Proof.
  destruct (add_frame_record_fields Yjit.sample_profile ∅ 8)
    as (fi & Hfi & Hname & Hfile & _ & _ & Hline & _).
  - apply lookup_empty.
  - exists fi. split; [exact Hfi|]. split; [exact Hname|]. split; [exact Hfile | exact Hline].
Defined.
